(** * OnyLogger: a shallow embedding of the logger package and its properties

    The development follows the layout of the Go file: the logging flags and
    the leveled logging functions ([logMessage], [slogMessage] and their
    wrappers), the two prompt readers ([UserInput], [MUserInput]), the spinner
    and the option selector ([initialModel], [Update], [SelectOption]).

    Go strings are byte strings, so [string] (a list of [ascii]) is used as
    it is; the emoji constants are the UTF-8 bytes of the source literals.
    Go's [int] is modelled by [Z]: the cursor moves by one under its guards
    and the widths are those of a terminal, far from the bounds of [int]. *)

From Stdlib Require Import ZArith Ascii String List Lia.
From stdpp Require Import base option list strings gmap fin_maps.
From Equations Require Import Equations.

Local Open Scope string_scope.
Local Open Scope Z_scope.

(** ** The world the logger writes to *)

(** The three package-level flags. *)
Record Flags := mkFlags {
  DebugEnabled : bool;
  ColorsEnabled : bool;
  SuppressOutput : bool
}.

(** Initial values of the flags, as declared in the source. *)
Definition default_flags : Flags :=
  {| DebugEnabled := false; ColorsEnabled := true; SuppressOutput := false |}.

(** What the package emits.  [LogPrintln s] is a call [log.Println] that
    renders to the text [s] (the standard logger ends it with a newline);
    [FmtPrint s] is a call [fmt.Print] writing [s] to standard output. *)
Inductive Output :=
| LogPrintln (line : string)
| FmtPrint (text : string).

(** The world: the flags, the clock and the output written so far (oldest
    first).  [clock n] is the rendering of the [n]-th reading of
    [time.Now()] under the layout "2006-01-02 15:04:05". *)
Record World := mkWorld {
  flags : Flags;
  clock : nat -> string;
  ticks : nat;
  out : list Output
}.

(** A state monad over the world. *)
Definition M (A : Type) : Type := World -> A * World.

Definition ret {A} (a : A) : M A := fun w => (a, w).

Definition bind {A B} (m : M A) (k : A -> M B) : M B :=
  fun w => let (a, w') := m w in k a w'.

Notation "'do' x <- m ; k" := (bind m (fun x => k))
  (at level 10, x name, m at level 100, k at level 200,
   format "'[v' 'do'  x  <-  m ; '/' k ']'").
Notation "'run' m ; k" := (bind m (fun _ => k))
  (at level 10, m at level 100, k at level 200,
   format "'[v' 'run'  m ; '/' k ']'").

Definition get_flags : M Flags := fun w => (flags w, w).

(** [time.Now().Format("2006-01-02 15:04:05")]. *)
Definition time_Now_Format : M string :=
  fun w => (clock w (ticks w),
            {| flags := flags w; clock := clock w; ticks := S (ticks w); out := out w |}).

Definition emit (o : Output) : M unit :=
  fun w => (tt, {| flags := flags w; clock := clock w; ticks := ticks w;
                   out := out w ++ [o] |}).

Definition log_Println (s : string) : M unit := emit (LogPrintln s).
Definition fmt_Print (s : string) : M unit := emit (FmtPrint s).

(** ** Constants *)

Definition ESC : ascii := ascii_of_nat 27.

Definition colorReset : string := String ESC "[0m".
Definition colorMagenta : string := String ESC "[35m".
Definition colorYellow : string := String ESC "[33m".
Definition colorRed : string := String ESC "[31m".
Definition colorCyan : string := String ESC "[36m".
Definition colorGreen : string := String ESC "[32m".

Definition emojiInfo : string := "📜".
Definition emojiWarning : string := "⚠️".
Definition emojiError : string := "❌".
Definition emojiDebug : string := "🐛".
Definition emojiSuccess : string := "✅".
Definition emojiLoading : string := "⏳".
Definition emojiInput : string := "📝".

(** ** logMessage and slogMessage *)

(** The [switch level] of [logMessage]: the color and the emoji of a level. *)
Definition level_color_emoji (level : string) : string * string :=
  if String.eqb level "INFO" then (colorMagenta, emojiInfo)
  else if String.eqb level "WARNING" then (colorYellow, emojiWarning)
  else if String.eqb level "ERROR" then (colorRed, emojiError)
  else if String.eqb level "DEBUG" then (colorCyan, emojiDebug)
  else if String.eqb level "SUCCESS" then (colorGreen, emojiSuccess)
  else if String.eqb level "USERINPUT" then (colorReset, emojiInput)
  else if String.eqb level "LOADING" then (colorCyan, emojiLoading)
  else (colorReset, "").

(** The [switch level] of [slogMessage]: the emoji only. *)
Definition level_emoji (level : string) : string :=
  if String.eqb level "INFO" then emojiInfo
  else if String.eqb level "WARNING" then emojiWarning
  else if String.eqb level "ERROR" then emojiError
  else if String.eqb level "DEBUG" then emojiDebug
  else if String.eqb level "SUCCESS" then emojiSuccess
  else if String.eqb level "USERINPUT" then emojiInput
  else if String.eqb level "LOADING" then emojiLoading
  else "".

(** [fmt.Sprintf("%s[%s]%s [%s] %s", color, timestamp, colorReset, emoji, message)] *)
Definition format_colored (color timestamp emoji message : string) : string :=
  color +:+ "[" +:+ timestamp +:+ "]" +:+ colorReset +:+ " [" +:+ emoji +:+ "] " +:+ message.

(** [fmt.Sprintf("[%s] [%s] %s", timestamp, emoji, message)] *)
Definition format_plain (timestamp emoji message : string) : string :=
  "[" +:+ timestamp +:+ "] [" +:+ emoji +:+ "] " +:+ message.

Definition logMessage (level message : string) : M unit :=
  do f <- get_flags;
  if SuppressOutput f then ret tt
  else
    do timestamp <- time_Now_Format;
    let '(color, emoji) := level_color_emoji level in
    let color := if negb (ColorsEnabled f) then "" else color in
    let formattedMessage := format_colored color timestamp emoji message in
    if negb (String.eqb level "USERINPUT") then log_Println formattedMessage
    else fmt_Print formattedMessage.

Definition slogMessage (level message : string) : M string :=
  do f <- get_flags;
  if SuppressOutput f then ret ""
  else
    do timestamp <- time_Now_Format;
    let emoji := level_emoji level in
    let formattedMessage := format_plain timestamp emoji message in
    ret formattedMessage.

(** ** The leveled functions

    [fmt.Sprint] and [fmt.Sprintf] belong to Go's standard library; the
    package only passes its arguments through them.  They are taken as an
    interface: [any] is the type of the variadic arguments and [str] injects
    a Go string into it. *)
Class Fmt := {
  any : Type;
  str : string -> any;
  Sprint : list any -> string;
  Sprintf : string -> list any -> string
}.

Section Levels.
Context `{Fmt}.

Definition Info (args : list any) : M unit := logMessage "INFO" (Sprint args).
Definition Sinfo (args : list any) : M string := slogMessage "INFO" (Sprint args).
Definition Infof (format : string) (a : list any) : M unit := Info [str (Sprintf format a)].
Definition Sinfof (format : string) (a : list any) : M string := Sinfo [str (Sprintf format a)].

Definition Warning (args : list any) : M unit := logMessage "WARNING" (Sprint args).
Definition Swarning (args : list any) : M string := slogMessage "WARNING" (Sprint args).
Definition Warningf (format : string) (a : list any) : M unit := Warning [str (Sprintf format a)].
Definition Swarningf (format : string) (a : list any) : M string := Swarning [str (Sprintf format a)].

Definition Error (args : list any) : M unit := logMessage "ERROR" (Sprint args).
Definition Serror (args : list any) : M string := slogMessage "ERROR" (Sprint args).
Definition Errorf (format : string) (a : list any) : M unit := Error [str (Sprintf format a)].
Definition Serrorf (format : string) (a : list any) : M string := Serror [str (Sprintf format a)].

Definition Debug (args : list any) : M unit :=
  do f <- get_flags;
  if DebugEnabled f then logMessage "DEBUG" (Sprint args) else ret tt.

Definition Sdebug (args : list any) : M string :=
  do f <- get_flags;
  if DebugEnabled f then slogMessage "DEBUG" (Sprint args) else ret "".

Definition Debugf (format : string) (a : list any) : M unit :=
  do f <- get_flags;
  if DebugEnabled f then Debug [str (Sprintf format a)] else ret tt.

Definition Sdebugf (format : string) (a : list any) : M string :=
  do f <- get_flags;
  if DebugEnabled f then Sdebug [str (Sprintf format a)] else ret "".

Definition Success (args : list any) : M unit := logMessage "SUCCESS" (Sprint args).
Definition Ssuccess (args : list any) : M string := slogMessage "SUCCESS" (Sprint args).
Definition Successf (format : string) (a : list any) : M unit := Success [str (Sprintf format a)].
Definition Ssuccessf (format : string) (a : list any) : M string := Ssuccess [str (Sprintf format a)].
End Levels.

(** ** Reading standard input

    [UserInput] and [MUserInput] read through a fresh [bufio.Scanner] over
    [os.Stdin] with the default split function [ScanLines].  The scanner is
    library code; it is modelled by what it hands to its caller: the next
    line without its terminator (a newline, with a carriage return before
    it dropped), a last unterminated line when the stream ends, and the
    error that stopped it.  A stream is the bytes that can still be read and
    the error its [Read] reports after them ([EOF] at a regular end). *)

Inductive error :=
| EOF
| ErrTooLong
| ReadError (msg : string).

Definition error_Error (e : error) : string :=
  match e with
  | EOF => "EOF"
  | ErrTooLong => "bufio.Scanner: token too long"
  | ReadError msg => msg
  end.

Record Stdin := mkStdin {
  bytes : string;
  ending : error
}.

Record Scanner := mkScanner {
  src : Stdin;
  token : string;
  err : option error
}.

Definition NewScanner (r : Stdin) : Scanner :=
  {| src := r; token := ""; err := None |}.

Definition LF : ascii := ascii_of_nat 10.
Definition CR : ascii := ascii_of_nat 13.
Definition newline : string := String LF "".

(** [bufio.MaxScanTokenSize]: the scanner's buffer holds at most 64 KiB. *)
Definition MaxScanTokenSize : N := 65536%N.

Definition fits (line : string) : bool :=
  (N.of_nat (String.length line) <? MaxScanTokenSize)%N.

(** Cuts [s] at its first newline: the bytes before it and the bytes after. *)
Fixpoint break_line (s : string) : option (string * string) :=
  match s with
  | EmptyString => None
  | String c s' =>
      if Ascii.eqb c LF then Some (EmptyString, s')
      else match break_line s' with
           | Some (l, r) => Some (String c l, r)
           | None => None
           end
  end.

(** [dropCR] of [bufio]: drops a final carriage return. *)
Fixpoint dropCR (s : string) : string :=
  match s with
  | EmptyString => EmptyString
  | String c EmptyString => if Ascii.eqb c CR then EmptyString else s
  | String c s' => String c (dropCR s')
  end.

(** [Scanner.Scan], up to and including the first call that returns false
    (neither reader calls it again after that). *)
Definition Scan (s : Scanner) : bool * Scanner :=
  match break_line (bytes (src s)) with
  | Some (line, rest) =>
      if fits line then
        (true, {| src := {| bytes := rest; ending := ending (src s) |};
                  token := dropCR line; err := err s |})
      else (false, {| src := src s; token := ""; err := Some ErrTooLong |})
  | None =>
      if fits (bytes (src s)) then
        match bytes (src s) with
        | EmptyString =>
            (false, {| src := src s; token := ""; err := Some (ending (src s)) |})
        | String _ _ =>
            (true, {| src := {| bytes := ""; ending := ending (src s) |};
                      token := dropCR (bytes (src s));
                      err := Some (ending (src s)) |})
        end
      else (false, {| src := src s; token := ""; err := Some ErrTooLong |})
  end.

Definition Text (s : Scanner) : string := token s.

(** [Scanner.Err]: the first error met, [io.EOF] excepted. *)
Definition Err (s : Scanner) : option error :=
  match err s with
  | Some EOF => None
  | e => e
  end.

(** [log.Println("Error reading input:", err)] *)
Definition log_read_error (e : error) : M unit :=
  log_Println ("Error reading input: " +:+ error_Error e).

(** [UserInput(promptMessage, userInput)]: [userInput] is the content of the
    caller's variable before the call, the result its content after. *)
Definition UserInput (promptMessage : string) (userInput : string) (stdin : Stdin)
  : M string :=
  run logMessage "USERINPUT" promptMessage;
  let scanner := NewScanner stdin in
  let '(ok, scanner) := Scan scanner in
  let userInput := if ok then Text scanner else userInput in
  match Err scanner with
  | Some e => run log_read_error e; ret userInput
  | None => ret userInput
  end.

(** Termination of the reading loop: a successful [Scan] consumes input. *)
Lemma break_line_shorter s l r :
  break_line s = Some (l, r) -> (String.length r < String.length s)%nat.
Proof.
  revert l r. induction s as [|c s IH]; intros l r; simpl; [discriminate|].
  destruct (Ascii.eqb c LF).
  - intros [= <- <-]. lia.
  - destruct (break_line s) as [[l' r']|]; [|discriminate].
    intros [= <- <-]. specialize (IH _ _ eq_refl). lia.
Qed.

Lemma Scan_consumes s s' :
  Scan s = (true, s') ->
  (String.length (bytes (src s')) < String.length (bytes (src s)))%nat.
Proof.
  unfold Scan. destruct (break_line (bytes (src s))) as [[l r]|] eqn:Hb.
  - destruct (fits l); intros [= <-]; simpl. eapply break_line_shorter; eauto.
  - destruct (fits _); [|discriminate].
    destruct (bytes (src s)); [discriminate|]. intros [= <-]. simpl. lia.
Qed.

(** Keeps the equation of a scrutinee, for the termination argument. *)
Definition inspect {A} (a : A) : {b : A | a = b} := exist _ a eq_refl.

(** The [for scanner.Scan()] loop of [MUserInput]: the accumulated [input]
    and the scanner when the loop is left. *)
Equations? MUserInput_loop (scanner : Scanner) (input : string) : string * Scanner
  by wf (String.length (bytes (src scanner))) lt :=
  MUserInput_loop scanner input with inspect (Scan scanner) => {
    | exist _ (true, scanner') Hscan with inspect (String.eqb (Text scanner') "") => {
        | exist _ true _ => (input, scanner');
        | exist _ false _ =>
            MUserInput_loop scanner' (input +:+ Text scanner' +:+ newline) };
    | exist _ (false, scanner') _ => (input, scanner') }.
Proof. apply Scan_consumes. assumption. Qed.

Definition MUserInput (promptMessage : string) (userInput : string) (stdin : Stdin)
  : M string :=
  run logMessage "USERINPUT" promptMessage;
  let scanner := NewScanner stdin in
  let '(input, scanner) := MUserInput_loop scanner "" in
  match Err scanner with
  | Some e => run log_read_error e; ret userInput
  | None => ret input
  end.

(** ** Spinner

    A spinner owns a channel that is only ever closed.  The heap of channels
    and the goroutines started by [Start] are part of the system state; a
    goroutine is followed from one statement of its loop to the next, and
    the scheduler's choices are a list of task numbers. *)

(** A Go panic, as opposed to a returned error. *)
Inductive result (A : Type) :=
| Ok (a : A)
| Panic (reason : string).
Arguments Ok {A} a.
Arguments Panic {A} reason.

Inductive chan_state := ChanOpen | ChanClosed.

(** [stopChan] is the address of the channel, [None] for the nil channel of
    a zero [Spinner]. *)
Record Spinner := mkSpinner {
  stopChan : option nat;
  message : string
}.

(** Where the goroutine of [Start] stands: before the [select], or in its
    [default] branch before the [fmt.Print]. *)
Inductive pc := AtSelect | AtPrint.

Inductive Task :=
| Running (s : Spinner) (frame : nat) (at_ : pc)
| Exited.

Record Sys := mkSys {
  world : World;
  chans : list chan_state;
  tasks : list Task
}.

Definition NewSpinner (message : string) (sys : Sys) : Spinner * Sys :=
  ({| stopChan := Some (length (chans sys)); message := message |},
   {| world := world sys; chans := chans sys ++ [ChanOpen]; tasks := tasks sys |}).

Definition frames : list string := ["|"; "/"; "-"; "\"].

Definition Start (s : Spinner) (sys : Sys) : Sys :=
  {| world := world sys; chans := chans sys;
     tasks := tasks sys ++ [Running s 0 AtSelect] |}.

(** [case <-s.stopChan] is ready exactly when the channel is closed: nothing
    is ever sent on it, and a nil channel is never ready. *)
Definition stop_received (s : Spinner) (sys : Sys) : bool :=
  match stopChan s with
  | Some a => match chans sys !! a with
              | Some ChanClosed => true
              | _ => false
              end
  | None => false
  end.

(** [fmt.Print(slogMessage("LOADING", fmt.Sprintf("%s %s\r", frame, s.message)))] *)
Definition print_frame (s : Spinner) (frame : string) : M unit :=
  do text <- slogMessage "LOADING" (frame +:+ " " +:+ message s +:+ String CR "");
  fmt_Print text.

(** One statement of a goroutine. *)
Definition task_step (t : Task) (sys : Sys) : Task * World :=
  match t with
  | Exited => (Exited, world sys)
  | Running s i AtSelect =>
      if stop_received s sys then (Exited, world sys)
      else (Running s i AtPrint, world sys)
  | Running s i AtPrint =>
      let '(_, w) := print_frame s (nth i frames "") (world sys) in
      (Running s (S i mod length frames)%nat AtSelect, w)
  end.

(** The scheduler runs one statement of task number [n]. *)
Definition step_task (n : nat) (sys : Sys) : Sys :=
  match tasks sys !! n with
  | Some t =>
      let '(t', w) := task_step t sys in
      {| world := w; chans := chans sys; tasks := <[n := t']> (tasks sys) |}
  | None => sys
  end.

Definition run_schedule (schedule : list nat) (sys : Sys) : Sys :=
  fold_left (fun sys n => step_task n sys) schedule sys.

(** [close(s.stopChan)], then [fmt.Print("\r\n")]. *)
Definition Stop (s : Spinner) (sys : Sys) : result Sys :=
  match stopChan s with
  | None => Panic "close of nil channel"
  | Some a =>
      match chans sys !! a with
      | Some ChanOpen =>
          let '(_, w) := fmt_Print (String CR (String LF "")) (world sys) in
          Ok {| world := w; chans := <[a := ChanClosed]> (chans sys); tasks := tasks sys |}
      | Some ChanClosed => Panic "close of closed channel"
      | None => Panic "close of nil channel"
      end
  end.

(** ** Option selector *)

(** [key.Binding] of the bubbles library: the keys it answers to and its
    help text; a binding is enabled unless disabled or without keys. *)
Record Binding := mkBinding {
  b_keys : list string;
  b_help : string * string;
  b_disabled : bool
}.

Definition NewBinding (ks : list string) (help_key help_desc : string) : Binding :=
  {| b_keys := ks; b_help := (help_key, help_desc); b_disabled := false |}.

Definition Enabled (b : Binding) : bool :=
  negb (b_disabled b) && match b_keys b with [] => false | _ => true end.

(** [key.Matches(msg, b)]: [k] is the key message's [String()]. *)
Definition Matches (k : string) (b : Binding) : bool :=
  existsb (fun v => String.eqb k v && Enabled b) (b_keys b).

Record keyMap := mkKeyMap {
  Up : Binding;
  Down : Binding;
  Enter : Binding;
  Quit : Binding
}.

Definition newKeyMap : keyMap :=
  {| Up := NewBinding ["up"; "k"] "↑/k" "up";
     Down := NewBinding ["down"; "j"] "↓/j" "down";
     Enter := NewBinding ["enter"] "enter" "select";
     Quit := NewBinding ["q"; "esc"; "ctrl+c"] "q/esc" "quit" |}.

Record menu_option := mkOption {
  o_title : string;
  o_desc : string
}.

Record model := mkModel {
  options : list menu_option;
  cursor : Z;
  selected : Z;
  title : string;
  keys : keyMap;
  choice : string;
  quitting : bool;
  width : Z;
  height : Z;
  centerItems : bool
}.

(** What [updateStyles] varies in a lipgloss style: its width and whether it
    is centered (colors, padding and borders are constants). *)
Record Style := mkStyle {
  st_width : option Z;
  st_centered : bool
}.

Definition plain_style : Style := {| st_width := None; st_centered := false |}.

(** The package-level style variables. *)
Record Styles := mkStyles {
  titleStyle : Style;
  selectedItemStyle : Style;
  itemStyle : Style;
  footerStyle : Style;
  optionsWrapper : Style
}.

Definition updateStyles (width : Z) (centerItems : bool) : Styles :=
  let optionWidth := Z.min (width - 8) 60 in
  let contentWidth := optionWidth - 2 in
  let centered w := if centerItems
                    then {| st_width := Some w; st_centered := true |}
                    else plain_style in
  {| titleStyle := centered optionWidth;
     selectedItemStyle := centered contentWidth;
     itemStyle := centered contentWidth;
     footerStyle := centered optionWidth;
     optionsWrapper := if centerItems
                       then {| st_width := Some optionWidth; st_centered := false |}
                       else plain_style |}.

(** [range] over a Go map yields its entries in an unspecified order: any
    arrangement of the entries is a possible iteration. *)
Definition range_order (optionsDescs : gmap string string)
    (iteration : list (string * string)) : Prop :=
  iteration ≡ₚ map_to_list optionsDescs.

(** [initialModel], given the order in which [range optionsDescs] yields the
    entries of the map. *)
Definition initialModel (title : string) (iteration : list (string * string))
    (centerItems : bool) : model :=
  let opts := map (fun kv => {| o_title := fst kv; o_desc := snd kv |}) iteration in
  {| options := opts; cursor := 0; selected := -1; title := title;
     keys := newKeyMap; choice := ""; quitting := false;
     width := 0; height := 0; centerItems := centerItems |}.

Inductive Msg :=
| WindowSizeMsg (Width Height : Z)
| KeyMsg (key : string)
| OtherMsg.

Inductive Cmd := NoCmd | QuitCmd.

(** [l[i]] with Go's bounds check. *)
Definition index {A} (l : list A) (i : Z) : option A :=
  if i <? 0 then None else l !! Z.to_nat i.

Definition set_size (m : model) (w h : Z) : model :=
  {| options := options m; cursor := cursor m; selected := selected m;
     title := title m; keys := keys m; choice := choice m;
     quitting := quitting m; width := w; height := h;
     centerItems := centerItems m |}.

Definition set_cursor (m : model) (c : Z) : model :=
  {| options := options m; cursor := c; selected := selected m;
     title := title m; keys := keys m; choice := choice m;
     quitting := quitting m; width := width m; height := height m;
     centerItems := centerItems m |}.

Definition set_quitting (m : model) : model :=
  {| options := options m; cursor := cursor m; selected := selected m;
     title := title m; keys := keys m; choice := choice m;
     quitting := true; width := width m; height := height m;
     centerItems := centerItems m |}.

Definition set_selection (m : model) (sel : Z) (ch : string) : model :=
  {| options := options m; cursor := cursor m; selected := sel;
     title := title m; keys := keys m; choice := ch;
     quitting := true; width := width m; height := height m;
     centerItems := centerItems m |}.

(** [model.Update]: the styles are the package-level variables that
    [updateStyles] assigns. *)
Definition Update (st : Styles) (m : model) (msg : Msg) : result (Styles * model * Cmd) :=
  match msg with
  | WindowSizeMsg w h =>
      let m := set_size m w h in
      Ok (updateStyles (width m) (centerItems m), m, NoCmd)
  | KeyMsg k =>
      if Matches k (Quit (keys m)) then Ok (st, set_quitting m, QuitCmd)
      else if Matches k (Up (keys m)) then
        Ok (st, (if 0 <? cursor m then set_cursor m (cursor m - 1) else m), NoCmd)
      else if Matches k (Down (keys m)) then
        Ok (st, (if cursor m <? Z.of_nat (length (options m)) - 1
                 then set_cursor m (cursor m + 1) else m), NoCmd)
      else if Matches k (Enter (keys m)) then
        match index (options m) (cursor m) with
        | Some o => Ok (st, set_selection m (cursor m) (o_title o), QuitCmd)
        | None => Panic "runtime error: index out of range"
        end
      else Ok (st, m, NoCmd)
  | OtherMsg => Ok (st, m, NoCmd)
  end.

(** What the bubbletea runtime hands to the program: a message delivered to
    [Update], or a failure of the runtime itself. *)
Inductive Event :=
| Deliver (msg : Msg)
| Fail (err : string).

Inductive RunResult :=
| Finished (finalModel : model)
| Failed (err : string)
| Panicked (reason : string)
| Waiting.

(** [p.Run()]: the event loop feeds the events to [Update] until a quit
    command comes back.  When the events run out first the loop is still
    waiting for input. *)
Fixpoint Run (st : Styles) (m : model) (events : list Event) : RunResult :=
  match events with
  | [] => Waiting
  | Fail e :: _ => Failed e
  | Deliver msg :: rest =>
      match Update st m msg with
      | Panic r => Panicked r
      | Ok (_, m', QuitCmd) => Finished m'
      | Ok (st', m', NoCmd) => Run st' m' rest
      end
  end.

(** How a call of [SelectOption] ends: it returns a choice and an error
    ([None] for nil); or [Update] panicked inside the event loop (the
    runtime recovers such a panic, and what [Run] hands back then differs
    between its versions, so this end is kept apart); or the call is still
    blocked in the event loop. *)
Inductive Outcome :=
| Returns (choice : string) (err : option string)
| UpdatePanicked (reason : string)
| Blocks.

Definition SelectOption (st : Styles) (title : string)
    (iteration : list (string * string)) (centerItems : bool)
    (events : list Event) : Outcome :=
  let m := initialModel title iteration centerItems in
  match Run st m events with
  | Failed e => Returns "" (Some e)
  | Finished m =>
      if negb (selected m =? -1) then Returns (choice m) None
      else Returns "" (Some "no option was selected")
  | Panicked r => UpdatePanicked r
  | Waiting => Blocks
  end.

(** ** Vocabulary of the statements *)

(** The world after one more reading of the clock. *)
Definition tick (w : World) : World := snd (time_Now_Format w).

(** The world after one more output. *)
Definition wrote (o : Output) (w : World) : World := snd (emit o w).

(** Whether a text holds an ANSI escape sequence: the byte ESC followed by
    an opening bracket. *)
Definition starts_with_bracket (s : string) : bool :=
  match s with
  | String c _ => Ascii.eqb c "["%char
  | EmptyString => false
  end.

Fixpoint has_ansi_escape (s : string) : bool :=
  match s with
  | EmptyString => false
  | String c s' => (Ascii.eqb c ESC && starts_with_bracket s') || has_ansi_escape s'
  end.

(** A formatting interface over plain strings, for concrete runs. *)
Definition string_fmt : Fmt :=
  {| any := string; str := fun s => s;
     Sprint := fun args => String.concat "" args;
     Sprintf := fun format _ => format |}.

Definition sample_clock : nat -> string := fun _ => "2024-01-01 00:00:00".

Definition sample_world (f : Flags) : World :=
  {| flags := f; clock := sample_clock; ticks := 0; out := [] |}.

(** The lines of a text: its maximal runs of bytes without a newline, each
    ended by a newline except possibly the last; an empty text has none. *)
Fixpoint lines (s : string) : list string :=
  match s with
  | EmptyString => []
  | String c s' =>
      if Ascii.eqb c LF then EmptyString :: lines s'
      else match lines s' with
           | [] => [String c EmptyString]
           | l :: ls => String c l :: ls
           end
  end.



(** Every line followed by a newline, concatenated. *)
Fixpoint join_lines (ls : list string) : string :=
  match ls with
  | [] => ""
  | l :: ls' => l +:+ newline +:+ join_lines ls'
  end.


(** The package-level styles before the first [updateStyles]: zero values. *)
Definition initial_styles : Styles :=
  {| titleStyle := plain_style; selectedItemStyle := plain_style;
     itemStyle := plain_style; footerStyle := plain_style;
     optionsWrapper := plain_style |}.

(** [Update] applied to a sequence of messages, one after the other. *)
Fixpoint updates (st : Styles) (m : model) (msgs : list Msg) : result (Styles * model) :=
  match msgs with
  | [] => Ok (st, m)
  | msg :: rest =>
      match Update st m msg with
      | Ok (st', m', _) => updates st' m' rest
      | Panic r => Panic r
      end
  end.

(** An event that does not confirm: a delivered message other than a key
    bound to [Enter]. *)
Definition no_confirm (ev : Event) : bool :=
  match ev with
  | Deliver (KeyMsg k) => negb (Matches k (Enter newKeyMap))
  | Deliver _ => true
  | Fail _ => false
  end.

(** The option map of the selector example. *)
Definition options_A_B : gmap string string :=
  {[ "A" := "descA"; "B" := "descB" ]}.

(** A goroutine started for spinner [s], running or exited. *)
Definition task_of (s : Spinner) (t : Task) : Prop :=
  t = Exited \/ exists i p, t = Running s i p.

(** How many of its own statements a goroutine still runs once its stop
    channel is closed: a pending print at most, then the [select] that
    returns. *)
Definition remaining (t : Task) : nat :=
  match t with
  | Exited => 0
  | Running _ _ AtSelect => 1
  | Running _ _ AtPrint => 2
  end.

(** ** The view of the selector

    [View] draws with the lipgloss library.  Its operations are taken as an
    interface: rendering a text in one of the package's styles, rendering a
    description in the style derived from it (the flag tells whether the
    option is under the cursor), joining blocks vertically, placing a block
    in the middle of the screen, and rendering with a maximal width or with
    the outer padding. *)
Class Lipgloss := {
  Render : Style -> string -> string;
  RenderDesc : bool -> Style -> string -> string;
  JoinVertical : list string -> string;
  Place : Z -> Z -> string -> string;
  RenderMaxWidth : Z -> string -> string;
  RenderPadded : string -> string
}.

Fixpoint repeat_string (n : nat) (s : string) : string :=
  match n with
  | O => ""
  | S n' => s +:+ repeat_string n' s
  end.

(** The largest [int] of a 64-bit platform. *)
Definition maxInt : Z := 2 ^ 63 - 1.

(** [strings.Repeat(s, count)], which panics on a negative count and on a
    result longer than [maxInt]. *)
Definition strings_Repeat (s : string) (count : Z) : result string :=
  if count <? 0 then Panic "strings: negative Repeat count"
  else if maxInt <? Z.of_nat (String.length s) * count
       then Panic "strings: Repeat output length overflow"
       else Ok (repeat_string (Z.to_nat count) s).

(** The [for i, opt := range m.options] loop of [View]: [i] is the index of
    the first option of [opts], [optionsContent] the text built so far. *)
Fixpoint View_options `{Lipgloss} (st : Styles) (cursor : Z) (i : Z)
    (opts : list menu_option) (optionsContent : string) : string :=
  match opts with
  | [] => optionsContent
  | opt :: rest =>
      let under := cursor =? i in
      let text := if under then "» " +:+ o_title opt else "  " +:+ o_title opt in
      let style := if under then selectedItemStyle st else itemStyle st in
      let optionsContent := optionsContent +:+ Render style text +:+ newline in
      let optionsContent :=
        if negb (String.eqb (o_desc opt) "")
        then optionsContent +:+ RenderDesc under style (o_desc opt) +:+ newline +:+ newline
        else optionsContent in
      View_options st cursor (i + 1) rest optionsContent
  end.

(** The text shown once an option is confirmed. *)
Definition selection_message (choice : string) : string :=
  newline +:+ "✨ You selected: " +:+ choice +:+ " ✨" +:+ newline +:+ newline.

(** [model.View]. *)
Definition View `{Lipgloss} (st : Styles) (m : model) : result string :=
  if quitting m && negb (selected m =? -1) then Ok (selection_message (choice m))
  else
    let titleContent := Render (titleStyle st) (title m) in
    let optionsContent := View_options st (cursor m) 0 (options m) "" in
    let optionsSection := Render (optionsWrapper st) optionsContent in
    match strings_Repeat "─" (Z.max (width m - 8) 60 - 4) with
    | Panic r => Panic r
    | Ok separator =>
        let helpText :=
          Render (footerStyle st) "↑/↓: navigate • enter: select • q/esc: quit" in
        let content :=
          JoinVertical [titleContent; optionsSection;
                        newline +:+ separator +:+ newline; helpText] in
        if centerItems m then
          Ok (Place (width m) (height m)
                (RenderMaxWidth (Z.min (width m - 4) 62) content))
        else Ok (RenderPadded content)
    end.

(** ** The logrus-based logger

    The earlier file of the package formats the entries of a logrus logger.
    A logrus level is a [uint32]; the values of an entry's data are Go
    interface values, of which the formatter distinguishes strings and
    booleans; the time of an entry is kept as its rendering under the layout
    "2006-01-02 15:04:05". *)
Module Logrus.

Definition level_t : Type := N.
Definition PanicLevel : level_t := 0%N.
Definition FatalLevel : level_t := 1%N.
Definition ErrorLevel : level_t := 2%N.
Definition WarnLevel : level_t := 3%N.
Definition InfoLevel : level_t := 4%N.
Definition DebugLevel : level_t := 5%N.
Definition TraceLevel : level_t := 6%N.

Inductive value :=
| VString (s : string)
| VBool (b : bool)
| VOther.

Record Entry := mkEntry {
  Data : gmap string value;
  Time : string;
  Level : level_t;
  Message : string
}.

Record emojiFormatter := mkFormatter {
  levelEmojis : gmap N string
}.

(** The type assertions [v.(string)] and [v.(bool)] on a map lookup. *)
Definition as_string (v : option value) : option string :=
  match v with
  | Some (VString s) => Some s
  | _ => None
  end.

Definition as_bool (v : option value) : option bool :=
  match v with
  | Some (VBool b) => Some b
  | _ => None
  end.

(** [emojiFormatter.Format]: the bytes and the error, which is always nil. *)
Definition Format (f : emojiFormatter) (entry : Entry) : string * option string :=
  let emoji :=
    match as_string (Data entry !! "emoji") with
    | Some e => e
    | None => default "" (levelEmojis f !! Level entry)
    end in
  let colorCode :=
    if (Level entry =? InfoLevel)%N then
      match as_string (Data entry !! "log_type") with
      | Some logType => if String.eqb logType "input" then colorReset else colorMagenta
      | None => colorMagenta
      end
    else if (Level entry =? WarnLevel)%N then colorYellow
    else if (Level entry =? ErrorLevel)%N then colorRed
    else if (Level entry =? DebugLevel)%N then colorCyan
    else colorReset in
  let timestamp := colorCode +:+ Time entry +:+ String ESC "[0m" in
  let logMsg := "[" +:+ timestamp +:+ "] " +:+ emoji +:+ Message entry in
  let logMsg :=
    match as_bool (Data entry !! "no_newline") with
    | Some true => logMsg
    | _ => logMsg +:+ newline
    end in
  (logMsg, None).

(** The formatter that [New] installs. *)
Definition New_formatter : emojiFormatter :=
  {| levelEmojis := {[ InfoLevel := "[📜] "; WarnLevel := "[⚠️ ] ";
                       ErrorLevel := "[❌] "; DebugLevel := "[🐛] " ]} |}.

(** The entry that [Input] logs: an info entry with the three fields set by
    the chained [WithField] calls. *)
Definition Input_entry (now message : string) : Entry :=
  {| Data := <["no_newline" := VBool true]>
               (<["emoji" := VString "[📝] "]>
                  (<["log_type" := VString "input"]> ∅));
     Time := now; Level := InfoLevel; Message := message |}.

(** What [Input] writes: the formatted entry to the logger's output, and a
    text to standard output. *)
Inductive Written :=
| LoggerWrite (text : string)
| StdoutPrint (text : string).

(** [OnyLogger.Input] on a logger that carries formatter [f] and whose level
    is [level] (an info entry is logged when the level is at least
    [InfoLevel]): what is written, and the content of the caller's variable
    after the call. *)
Definition Input (f : emojiFormatter) (level : level_t) (now message : string)
    (userInput : string) (stdin : Stdin) : list Written * string :=
  let logged :=
    if (InfoLevel <=? level)%N
    then [LoggerWrite (fst (Format f (Input_entry now message)))]
    else [] in
  let '(_, scanner) := Scan (NewScanner stdin) in
  ((logged ++ [StdoutPrint " "])%list, Text scanner).

End Logrus.

(** ** More vocabulary *)

(** A computation that writes nothing and leaves the flags alone. *)
Definition quiet {A} (m : M A) : Prop :=
  forall w, out (snd (m w)) = out w /\ flags (snd (m w)) = flags w /\
            clock (snd (m w)) = clock w.

(** An event after which the event loop goes on: a delivered message that is
    neither a quit key nor a confirm key. *)
Definition keeps_running (ev : Event) : bool :=
  match ev with
  | Deliver (KeyMsg k) =>
      negb (Matches k (Quit newKeyMap)) && negb (Matches k (Enter newKeyMap))
  | Deliver _ => true
  | Fail _ => false
  end.

(** The title of the option at a position of the list. *)
Definition title_at (iteration : list (string * string)) (i : Z) : string :=
  match index iteration i with
  | Some kv => fst kv
  | None => ""
  end.

(** The frame that the spinner prints in its [j]-th round, counted from a
    start with frame number [i] and clock reading [n]. *)
Definition frame_line (clk : nat -> string) (n i : nat) (msg : string) (j : nat) : Output :=
  FmtPrint ("[" +:+ clk (n + j)%nat +:+ "] [" +:+ "⏳" +:+ "] " +:+
            nth ((i + j) mod 4) frames "" +:+ " " +:+ msg +:+ String CR "").

(** A rendering interface for concrete runs: every operation hands its text
    through. *)
Definition plain_lipgloss : Lipgloss :=
  {| Render := fun _ s => s; RenderDesc := fun _ _ s => s;
     JoinVertical := fun blocks => String.concat newline blocks;
     Place := fun _ _ s => s; RenderMaxWidth := fun _ s => s;
     RenderPadded := fun s => s |}.

(** An entry with one more field, as [WithField] makes it. *)
Definition with_field (key : string) (v : Logrus.value) (entry : Logrus.Entry)
  : Logrus.Entry :=
  {| Logrus.Data := <[key := v]> (Logrus.Data entry);
     Logrus.Time := Logrus.Time entry;
     Logrus.Level := Logrus.Level entry;
     Logrus.Message := Logrus.Message entry |}.

(** A line of 64 KiB, one byte more than the scanner's buffer can hold
    together with its newline. *)
Definition long_line : string := repeat_string (N.to_nat MaxScanTokenSize) "a".

(** * Properties *)

(** ** Suppressed output *)

Lemma logMessage_suppressed level message w :
  SuppressOutput (flags w) = true -> logMessage level message w = (tt, w).
Proof.
  intros Hs. unfold logMessage, bind, get_flags. rewrite Hs. reflexivity.
Qed.

Lemma slogMessage_suppressed level message w :
  SuppressOutput (flags w) = true -> slogMessage level message w = ("", w).
Proof.
  intros Hs. unfold slogMessage, bind, get_flags. rewrite Hs. reflexivity.
Qed.

Lemma Debug_suppressed `{Fmt} args w :
  SuppressOutput (flags w) = true -> Debug args w = (tt, w).
Proof.
  intros Hs. unfold Debug, bind, get_flags.
  destruct (DebugEnabled (flags w)); [now apply logMessage_suppressed | reflexivity].
Qed.

Lemma Sdebug_suppressed `{Fmt} args w :
  SuppressOutput (flags w) = true -> Sdebug args w = ("", w).
Proof.
  intros Hs. unfold Sdebug, bind, get_flags.
  destruct (DebugEnabled (flags w)); [now apply slogMessage_suppressed | reflexivity].
Qed.

(** C1. When [SuppressOutput] is true, a logging call of any level and with
    any message leaves the world as it is (nothing is written, the clock is
    not even read), and every string-returning variant returns the empty
    string; so do the formatted variants and the prompt of the readers. *)
Theorem suppressed_output_is_silent `{Fmt} (w : World) (level message format : string)
    (args : list any) :
  SuppressOutput (flags w) = true ->
  logMessage level message w = (tt, w) /\
  slogMessage level message w = ("", w) /\
  (Info args w = (tt, w) /\ Warning args w = (tt, w) /\ Error args w = (tt, w) /\
   Debug args w = (tt, w) /\ Success args w = (tt, w)) /\
  (Sinfo args w = ("", w) /\ Swarning args w = ("", w) /\ Serror args w = ("", w) /\
   Sdebug args w = ("", w) /\ Ssuccess args w = ("", w)) /\
  (Infof format args w = (tt, w) /\ Warningf format args w = (tt, w) /\
   Errorf format args w = (tt, w) /\ Debugf format args w = (tt, w) /\
   Successf format args w = (tt, w)) /\
  (Sinfof format args w = ("", w) /\ Swarningf format args w = ("", w) /\
   Serrorf format args w = ("", w) /\ Sdebugf format args w = ("", w) /\
   Ssuccessf format args w = ("", w)).
Proof.
  intros Hs.
  assert (HD : forall a, Debug a w = (tt, w)) by (intros; now apply Debug_suppressed).
  assert (HS : forall a, Sdebug a w = ("", w)) by (intros; now apply Sdebug_suppressed).
  repeat split;
    try (now apply logMessage_suppressed);
    try (now apply slogMessage_suppressed);
    try apply HD; try apply HS.
  - unfold Debugf, bind, get_flags. destruct (DebugEnabled (flags w)); [apply HD | reflexivity].
  - unfold Sdebugf, bind, get_flags. destruct (DebugEnabled (flags w)); [apply HS | reflexivity].
Qed.

Lemma suppressed_output_is_silent_witness :
  let w := sample_world {| DebugEnabled := true; ColorsEnabled := true; SuppressOutput := true |} in
  logMessage "INFO" "hello" w = (tt, w) /\
  @Sinfo string_fmt ["hello"] w = ("", w).
Proof.
  intros w.
  pose proof (@suppressed_output_is_silent string_fmt w "INFO" "hello" "%s" ["hello"] eq_refl)
    as (H1 & _ & _ & (H2 & _) & _).
  split; [exact H1 | exact H2].
Defined.

(** ** Colors *)

(** What [logMessage] writes when output is not suppressed: one line, through
    [fmt.Print] for the prompt level and through [log.Println] otherwise. *)
Lemma logMessage_writes level message w :
  SuppressOutput (flags w) = false ->
  let color := if ColorsEnabled (flags w) then fst (level_color_emoji level) else "" in
  let line := color +:+ "[" +:+ clock w (ticks w) +:+ "]" +:+ colorReset +:+
              " [" +:+ snd (level_color_emoji level) +:+ "] " +:+ message in
  logMessage level message w =
    (tt, wrote (if String.eqb level "USERINPUT" then FmtPrint line else LogPrintln line)
               (tick w)).
Proof.
  intros Hs. unfold logMessage, bind, get_flags. rewrite Hs. cbn [time_Now_Format].
  destruct (level_color_emoji level) as [color emoji].
  destruct (ColorsEnabled (flags w)), (String.eqb level "USERINPUT"); reflexivity.
Qed.

Lemma has_ansi_escape_app_r a b :
  has_ansi_escape b = true -> has_ansi_escape (a +:+ b) = true.
Proof.
  intros Hb. induction a as [|c a IH]; [exact Hb|].
  change (has_ansi_escape (String c a +:+ b))
    with ((Ascii.eqb c ESC && starts_with_bracket (a +:+ b)) || has_ansi_escape (a +:+ b)).
  rewrite IH. apply orb_true_r.
Qed.

Lemma has_ansi_escape_reset rest : has_ansi_escape (colorReset +:+ rest) = true.
Proof. reflexivity. Qed.

(** With colors enabled the timestamp bracket of every level stands between
    the level's color escape and the reset escape; the prompt level uses the
    reset escape as its color. *)
Lemma logMessage_colors_on message w :
  SuppressOutput (flags w) = false ->
  ColorsEnabled (flags w) = true ->
  let line color emoji :=
    color +:+ "[" +:+ clock w (ticks w) +:+ "]" +:+ colorReset +:+
    " [" +:+ emoji +:+ "] " +:+ message in
  let logged color emoji := (tt, wrote (LogPrintln (line color emoji)) (tick w)) in
  logMessage "INFO" message w = logged colorMagenta "📜" /\
  logMessage "WARNING" message w = logged colorYellow "⚠️" /\
  logMessage "ERROR" message w = logged colorRed "❌" /\
  logMessage "DEBUG" message w = logged colorCyan "🐛" /\
  logMessage "SUCCESS" message w = logged colorGreen "✅" /\
  logMessage "USERINPUT" message w =
    (tt, wrote (FmtPrint (line colorReset "📝")) (tick w)).
Proof.
  intros Hs Hc. repeat split; rewrite (logMessage_writes _ _ _ Hs), Hc; reflexivity.
Qed.

(** C2. With [ColorsEnabled] false (and output not suppressed) the line that
    [logMessage] writes still carries the reset escape after the timestamp
    bracket, for every level and every message: only the leading color
    escape is dropped. *)
Theorem logMessage_colors_off_keeps_reset (level message : string) (debug : bool)
    (clk : nat -> string) (n : nat) (o : list Output) :
  let w := {| flags := {| DebugEnabled := debug; ColorsEnabled := false;
                          SuppressOutput := false |};
              clock := clk; ticks := n; out := o |} in
  let line := "[" +:+ clk n +:+ "]" +:+ colorReset +:+
              " [" +:+ snd (level_color_emoji level) +:+ "] " +:+ message in
  out (snd (logMessage level message w)) =
    (o ++ [if String.eqb level "USERINPUT" then FmtPrint line else LogPrintln line])%list /\
  has_ansi_escape line = true.
Proof.
  intros w line. split.
  - rewrite logMessage_writes by reflexivity. cbn.
    destruct (String.eqb level "USERINPUT"); reflexivity.
  - subst line.
    change ("[" +:+ clk n +:+ "]" +:+ colorReset +:+ " [" +:+
              snd (level_color_emoji level) +:+ "] " +:+ message)
      with (String "[" (clk n +:+ "]" +:+ colorReset +:+ " [" +:+
              snd (level_color_emoji level) +:+ "] " +:+ message)).
    apply (has_ansi_escape_app_r "[").
    apply has_ansi_escape_app_r.
    apply (has_ansi_escape_app_r "]").
    apply has_ansi_escape_reset.
Qed.

(** The failing input of C2, evaluated. *)
Example logMessage_colors_off_info :
  let w := sample_world {| DebugEnabled := false; ColorsEnabled := false;
                           SuppressOutput := false |} in
  out (snd (logMessage "INFO" "hi" w)) =
    [LogPrintln ("[2024-01-01 00:00:00]" +:+ String ESC "[0m" +:+ " [📜] hi")].
Proof. reflexivity. Qed.

(** ** Debug level *)

(** C9. With [DebugEnabled] false the four debug functions write nothing and
    the string-returning ones return the empty string, whatever the
    arguments.  With [DebugEnabled] true and output not suppressed, [Sdebug]
    and [Sdebugf] return "[timestamp] [emoji] message" and [Debug] and
    [Debugf] log that line, with the timestamp bracket wrapped as for every
    other level. *)
Theorem debug_gated_by_DebugEnabled `{Fmt} (w : World) (format : string) (args : list any) :
  (DebugEnabled (flags w) = false ->
   Debug args w = (tt, w) /\ Debugf format args w = (tt, w) /\
   Sdebug args w = ("", w) /\ Sdebugf format args w = ("", w)) /\
  (DebugEnabled (flags w) = true -> SuppressOutput (flags w) = false ->
   let timestamp := clock w (ticks w) in
   let plain msg := "[" +:+ timestamp +:+ "] [" +:+ "🐛" +:+ "] " +:+ msg in
   let wrapped msg :=
     (if ColorsEnabled (flags w) then colorCyan else "") +:+
     "[" +:+ timestamp +:+ "]" +:+ colorReset +:+ " [" +:+ "🐛" +:+ "] " +:+ msg in
   Sdebug args w = (plain (Sprint args), tick w) /\
   Sdebugf format args w = (plain (Sprint [str (Sprintf format args)]), tick w) /\
   Debug args w = (tt, wrote (LogPrintln (wrapped (Sprint args))) (tick w)) /\
   Debugf format args w =
     (tt, wrote (LogPrintln (wrapped (Sprint [str (Sprintf format args)]))) (tick w))).
Proof.
  split.
  - intros Hd. unfold Debug, Debugf, Sdebug, Sdebugf, bind, get_flags.
    rewrite Hd. repeat split.
  - intros Hd Hs timestamp plain wrapped.
    assert (HS : forall msg, slogMessage "DEBUG" msg w = (plain msg, tick w)).
    { intros msg. unfold slogMessage, bind, get_flags. rewrite Hs. reflexivity. }
    assert (HL : forall msg,
      logMessage "DEBUG" msg w = (tt, wrote (LogPrintln (wrapped msg)) (tick w))).
    { intros msg. rewrite (logMessage_writes _ _ _ Hs). subst wrapped timestamp.
      cbn. destruct (ColorsEnabled (flags w)); reflexivity. }
    unfold Debug, Debugf, Sdebug, Sdebugf, bind, get_flags. rewrite Hd.
    cbn [fst snd]. unfold Debug, Sdebug, bind, get_flags. rewrite Hd.
    repeat split; first [apply HS | apply HL].
Qed.

Lemma debug_gated_by_DebugEnabled_witness :
  (let w := sample_world default_flags in
   @Debug string_fmt ["x"] w = (tt, w) /\ @Sdebug string_fmt ["x"] w = ("", w)) /\
  (let w := sample_world {| DebugEnabled := true; ColorsEnabled := true;
                            SuppressOutput := false |} in
   @Sdebug string_fmt ["x"] w = ("[2024-01-01 00:00:00] [🐛] x", tick w)).
Proof.
  split.
  - intros w.
    destruct (@debug_gated_by_DebugEnabled string_fmt w "%s" ["x"]) as [Hoff _].
    destruct (Hoff eq_refl) as (H1 & _ & H3 & _). split; [exact H1 | exact H3].
  - intros w.
    destruct (@debug_gated_by_DebugEnabled string_fmt w "%s" ["x"]) as [_ Hon].
    destruct (Hon eq_refl eq_refl) as (H1 & _). exact H1.
Defined.

(** ** Reading lines *)

Lemma lines_break s l r : break_line s = Some (l, r) -> lines s = l :: lines r.
Proof.
  revert l. induction s as [|c s IH]; intros l; simpl; [discriminate|].
  destruct (Ascii.eqb c LF).
  - intros [= <- <-]. reflexivity.
  - destruct (break_line s) as [[l' r']|]; [|discriminate].
    intros [= <- <-]. rewrite (IH l' eq_refl). reflexivity.
Qed.

Lemma lines_no_break c s : break_line (String c s) = None -> lines (String c s) = [String c s].
Proof.
  revert c. induction s as [|d s IH]; intros c; simpl.
  - destruct (Ascii.eqb c LF); [discriminate | reflexivity].
  - destruct (Ascii.eqb c LF); [discriminate|].
    intros Hb. simpl in IH. rewrite IH; [reflexivity|].
    destruct (Ascii.eqb d LF); [discriminate|].
    destruct (break_line s) as [[? ?]|]; [discriminate | reflexivity].
Qed.

(** The loop of [MUserInput], one iteration unfolded. *)
Lemma MUserInput_loop_step scanner input :
  MUserInput_loop scanner input =
  match Scan scanner with
  | (true, scanner') =>
      if String.eqb (Text scanner') ""
      then (input, scanner')
      else MUserInput_loop scanner' (input +:+ Text scanner' +:+ newline)
  | (false, scanner') => (input, scanner')
  end.
Proof.
  funelim (MUserInput_loop scanner input).
  all: match goal with E : Scan _ = _ |- _ => rewrite E end.
  all: try match goal with E : String.eqb _ _ = _ |- _ => rewrite E end.
  all: reflexivity.
Qed.

Lemma append_nil_r (s : string) : s +:+ "" = s.
Proof.
  induction s as [|c s IH]; [reflexivity|].
  change (String c (s +:+ "") = String c s). now rewrite IH.
Qed.

Lemma append_assoc (a b c : string) : (a +:+ b) +:+ c = a +:+ b +:+ c.
Proof.
  induction a as [|x a IH]; [reflexivity|].
  change (String x ((a +:+ b) +:+ c) = String x (a +:+ b +:+ c)). now rewrite IH.
Qed.





(** ** Read errors *)

(** When the stream breaks with a read error, every line fits and none is
    empty, the loop accumulates all lines and leaves the scanner with that
    error. *)
Lemma MUserInput_loop_read_error n : forall scanner input e,
  (String.length (bytes (src scanner)) < n)%nat ->
  ending (src scanner) = ReadError e ->
  Forall (fun l => fits l = true /\ dropCR l <> "") (lines (bytes (src scanner))) ->
  exists scanner',
    MUserInput_loop scanner input =
      (input +:+ join_lines (map dropCR (lines (bytes (src scanner)))), scanner') /\
    Err scanner' = Some (ReadError e).
Proof.
  induction n as [|n IH]; intros scanner input e Hlen Hend Hok; [lia|].
  rewrite MUserInput_loop_step. unfold Scan.
  destruct (break_line (bytes (src scanner))) as [[l r]|] eqn:Hb.
  - rewrite (lines_break _ _ _ Hb) in Hok |- *.
    apply Forall_cons in Hok as [[Hl Hne] Hr]. rewrite Hl. cbn [Text token map].
    apply String.eqb_neq in Hne. rewrite Hne.
    set (scanner1 := {| src := {| bytes := r; ending := ending (src scanner) |};
                        token := dropCR l; err := err scanner |}).
    destruct (IH scanner1 (input +:+ dropCR l +:+ newline) e) as (scanner' & Hloop & Herr').
    + apply break_line_shorter in Hb. cbn. lia.
    + exact Hend.
    + exact Hr.
    + exists scanner'. split; [|exact Herr'].
      rewrite Hloop. cbn [join_lines src bytes scanner1]. now rewrite !append_assoc.
  - destruct (bytes (src scanner)) as [|c s] eqn:Hbytes.
    + cbn. eexists. split; [now rewrite append_nil_r|]. cbn. now rewrite Hend.
    + rewrite (lines_no_break _ _ Hb) in Hok |- *.
      apply Forall_cons in Hok as [[Hl Hne] _]. rewrite Hl. cbn [Text token map].
      apply String.eqb_neq in Hne. rewrite Hne.
      set (scanner1 := {| src := {| bytes := ""; ending := ending (src scanner) |};
                          token := dropCR (String c s);
                          err := Some (ending (src scanner)) |}).
      destruct (IH scanner1 (input +:+ dropCR (String c s) +:+ newline) e)
        as (scanner' & Hloop & Herr').
      * cbn. cbn in Hlen. lia.
      * exact Hend.
      * constructor.
      * exists scanner'. split; [|exact Herr'].
        rewrite Hloop. cbn [join_lines src bytes scanner1 lines map].
        now rewrite !append_assoc.
Qed.

(** C3, as the code has it.  A read error is logged through [log.Println].
    [UserInput], when the error comes before the first newline, stores the
    bytes read before it (a final carriage return dropped), and leaves the
    caller's variable alone when there are none.  [MUserInput], when the
    error comes before an empty line, returns without storing: the caller's
    variable keeps its content and the lines accumulated so far are dropped. *)
Theorem read_error_is_logged (promptMessage userInput input e : string) (w : World) :
  let stdin := {| bytes := input; ending := ReadError e |} in
  let logged := wrote (LogPrintln ("Error reading input: " +:+ e))
                      (snd (logMessage "USERINPUT" promptMessage w)) in
  (fits input = true -> break_line input = None ->
   UserInput promptMessage userInput stdin w =
     (match input with EmptyString => userInput | String _ _ => dropCR input end, logged)) /\
  (Forall (fun l => fits l = true /\ dropCR l <> "") (lines input) ->
   fst (MUserInput_loop (NewScanner stdin) "") = join_lines (map dropCR (lines input)) /\
   MUserInput promptMessage userInput stdin w = (userInput, logged)).
Proof.
  intros stdin logged. subst logged. split.
  - intros Hfit Hb. unfold UserInput, bind, Scan, NewScanner. subst stdin.
    destruct (logMessage "USERINPUT" promptMessage w) as [[] w'].
    cbn [src bytes ending]. rewrite Hb, Hfit.
    destruct input; reflexivity.
  - intros Hok.
    destruct (MUserInput_loop_read_error (S (String.length input)) (NewScanner stdin) "" e)
      as (scanner' & Hloop & Herr'); [cbn; lia | reflexivity | exact Hok |].
    cbn [NewScanner src bytes String.append] in Hloop. split; [now rewrite Hloop|].
    unfold MUserInput, bind.
    destruct (logMessage "USERINPUT" promptMessage w) as [[] w'].
    fold stdin. rewrite Hloop, Herr'. reflexivity.
Qed.

Lemma read_error_is_logged_witness :
  let stdin := {| bytes := "ab"; ending := ReadError "broken pipe" |} in
  let w := sample_world default_flags in
  fst (UserInput "> " "old" stdin w) = "ab" /\
  fst (MUserInput "> " "old" stdin w) = "old".
Proof.
  intros stdin w.
  destruct (read_error_is_logged "> " "old" "ab" "broken pipe" w) as [HU HM].
  split.
  - subst stdin. rewrite HU; reflexivity.
  - destruct HM as [_ HM].
    + repeat constructor; discriminate.
    + subst stdin. rewrite HM. reflexivity.
Defined.

(** C3 as stated fails for [MUserInput]: the lines read before the error are
    not stored. *)
Lemma MUserInput_read_error_drops_partial_input :
  let stdin := {| bytes := "a" +:+ newline +:+ "b"; ending := ReadError "boom" |} in
  let w := sample_world default_flags in
  fst (MUserInput_loop (NewScanner stdin) "") = "a" +:+ newline +:+ "b" +:+ newline /\
  Err (snd (MUserInput_loop (NewScanner stdin) "")) = Some (ReadError "boom") /\
  fst (MUserInput "> " "old" stdin w) = "old" /\
  fst (MUserInput "> " "old" stdin w) <> fst (MUserInput_loop (NewScanner stdin) "").
Proof.
  vm_compute. repeat split; discriminate.
Qed.

(** ** Option selector *)

Lemma index_in_range {A} (l : list A) (i : Z) :
  0 <= i < Z.of_nat (length l) -> exists x, index l i = Some x.
Proof.
  intros Hi. unfold index.
  destruct (Z.ltb_spec i 0) as [|_]; [lia|].
  destruct (l !! Z.to_nat i) as [x|] eqn:Hl; [eauto|].
  apply lookup_ge_None in Hl. lia.
Qed.

(** One [Update] moves the cursor by at most one: down by one only on a key
    bound to [Up] and from a cursor above 0, up by one only on a key bound
    to [Down] and from a cursor below the last index.  The options and the
    key map never change. *)
Lemma Update_cursor st m msg st' m' c :
  Update st m msg = Ok (st', m', c) ->
  options m' = options m /\ keys m' = keys m /\
  (cursor m' = cursor m \/
   (exists k, msg = KeyMsg k /\ Matches k (Up (keys m)) = true /\
              0 < cursor m /\ cursor m' = cursor m - 1) \/
   (exists k, msg = KeyMsg k /\ Matches k (Down (keys m)) = true /\
              cursor m < Z.of_nat (length (options m)) - 1 /\ cursor m' = cursor m + 1)).
Proof.
  unfold Update. destruct msg as [wd ht|k|].
  - intros [= <- <- <-]. cbn. auto.
  - destruct (Matches k (Quit (keys m))).
    { intros [= <- <- <-]. cbn. auto. }
    destruct (Matches k (Up (keys m))) eqn:Hup.
    { intros [= <- <- <-]. destruct (Z.ltb_spec 0 (cursor m)); cbn; [|auto].
      do 2 (split; [reflexivity|]). right. left. exists k. auto. }
    destruct (Matches k (Down (keys m))) eqn:Hdown.
    { intros [= <- <- <-].
      destruct (Z.ltb_spec (cursor m) (Z.of_nat (length (options m)) - 1)); cbn; [|auto].
      do 2 (split; [reflexivity|]). right. right. exists k. auto. }
    destruct (Matches k (Enter (keys m))).
    + destruct (index (options m) (cursor m)); [|discriminate].
      intros [= <- <- <-]. cbn. auto.
    + intros [= <- <- <-]. auto.
  - intros [= <- <- <-]. auto.
Qed.

(** With the cursor inside the list, [Update] does not panic and keeps the
    cursor inside. *)
Lemma Update_keeps_cursor_in_range st m msg :
  0 <= cursor m < Z.of_nat (length (options m)) ->
  exists st' m' c,
    Update st m msg = Ok (st', m', c) /\
    options m' = options m /\
    0 <= cursor m' < Z.of_nat (length (options m')).
Proof.
  intros Hc.
  assert (exists r, Update st m msg = Ok r) as [[[st' m'] c] HU].
  { unfold Update. destruct msg as [wd ht|k|]; [eauto| |eauto].
    repeat match goal with |- context [if ?b then _ else _] => destruct b; [eauto|] end.
    - destruct (index_in_range (options m) (cursor m) Hc) as [o ->]. eauto.
    - eauto. }
  exists st', m', c. split; [exact HU|].
  destruct (Update_cursor _ _ _ _ _ _ HU) as (Hopt & _ & Hcur).
  split; [exact Hopt|]. rewrite Hopt.
  destruct Hcur as [-> | [(k & _ & _ & ? & ->) | (k & _ & _ & ? & ->)]]; lia.
Qed.

Lemma updates_keep_cursor_in_range msgs : forall st m,
  0 <= cursor m < Z.of_nat (length (options m)) ->
  exists st' m',
    updates st m msgs = Ok (st', m') /\
    options m' = options m /\
    0 <= cursor m' < Z.of_nat (length (options m')).
Proof.
  induction msgs as [|msg msgs IH]; intros st m Hc.
  - exists st, m. auto.
  - destruct (Update_keeps_cursor_in_range st m msg Hc) as (st1 & m1 & c & HU & Hopt & Hc1).
    destruct (IH st1 m1 Hc1) as (st' & m' & HUs & Hopt' & Hc').
    exists st', m'. cbn [updates]. rewrite HU. split; [exact HUs|].
    split; [congruence | exact Hc'].
Qed.

(** C6. From the initial model of a non-empty option list, every finite
    sequence of messages (keys, resizes and others) is processed by [Update]
    without a panic and leaves the cursor within [0, len(options)-1]; a
    single [Update] lowers the cursor only on an up key with the cursor
    above 0, and raises it only on a down key with the cursor below
    len(options)-1. *)
Theorem cursor_stays_in_range (st : Styles) (title : string)
    (iteration : list (string * string)) (centerItems : bool) (msgs : list Msg) :
  iteration <> [] ->
  (exists st' m',
     updates st (initialModel title iteration centerItems) msgs = Ok (st', m') /\
     length (options m') = length iteration /\
     0 <= cursor m' <= Z.of_nat (length (options m')) - 1) /\
  (forall st1 m1 msg st2 m2 c,
     Update st1 m1 msg = Ok (st2, m2, c) ->
     cursor m2 = cursor m1 \/
     (exists k, msg = KeyMsg k /\ Matches k (Up (keys m1)) = true /\
                0 < cursor m1 /\ cursor m2 = cursor m1 - 1) \/
     (exists k, msg = KeyMsg k /\ Matches k (Down (keys m1)) = true /\
                cursor m1 < Z.of_nat (length (options m1)) - 1 /\
                cursor m2 = cursor m1 + 1)).
Proof.
  intros Hne. split.
  - destruct (updates_keep_cursor_in_range msgs st (initialModel title iteration centerItems))
      as (st' & m' & HU & Hopt & Hc).
    { cbn. rewrite length_map. destruct iteration; [congruence | cbn; lia]. }
    exists st', m'. split; [exact HU|]. split; [|lia].
    rewrite Hopt. cbn. apply length_map.
  - intros st1 m1 msg st2 m2 c HU. apply (Update_cursor _ _ _ _ _ _ HU).
Qed.

Lemma cursor_stays_in_range_witness :
  exists st' m',
    updates initial_styles (initialModel "pick" [("A", "descA"); ("B", "descB")] false)
      [KeyMsg "down"; KeyMsg "down"; WindowSizeMsg 80 24; KeyMsg "up"; KeyMsg "up"]
      = Ok (st', m') /\
    0 <= cursor m' <= 1.
Proof.
  destruct (cursor_stays_in_range initial_styles "pick" [("A", "descA"); ("B", "descB")] false
              [KeyMsg "down"; KeyMsg "down"; WindowSizeMsg 80 24; KeyMsg "up"; KeyMsg "up"])
    as [(st' & m' & HU & Hlen & Hc) _]; [discriminate|].
  exists st', m'. split; [exact HU|]. rewrite Hlen in Hc. exact Hc.
Defined.

(** The event loop, fed events that do not confirm and then a quit key,
    finishes with a model that has no selection. *)
Lemma Run_quit_without_confirm pre : forall st m k rest,
  keys m = newKeyMap ->
  selected m = -1 ->
  Forall (fun ev => no_confirm ev = true) pre ->
  Matches k (Quit newKeyMap) = true ->
  exists m',
    Run st m (pre ++ Deliver (KeyMsg k) :: rest) = Finished m' /\
    selected m' = -1 /\ quitting m' = true.
Proof.
  induction pre as [|ev pre IH]; intros st m k rest Hkeys Hsel Hpre Hq.
  - cbn. rewrite Hkeys, Hq. eexists. split; [reflexivity|]. cbn. auto.
  - apply Forall_cons in Hpre as [Hev Hpre].
    destruct ev as [msg|e]; [|discriminate]. cbn [app Run].
    destruct msg as [wd ht|k'|].
    + cbn [Update]. apply IH; auto.
    + unfold no_confirm in Hev. apply negb_true_iff in Hev.
      cbn [Update]. rewrite Hkeys.
      destruct (Matches k' (Quit newKeyMap)).
      { eexists. split; [reflexivity|]. cbn. auto. }
      destruct (Matches k' (Up newKeyMap)).
      { destruct (0 <? cursor m); apply IH; auto. }
      destruct (Matches k' (Down newKeyMap)).
      { destruct (cursor m <? Z.of_nat (length (options m)) - 1); apply IH; auto. }
      rewrite Hev. apply IH; auto.
    + cbn [Update]. apply IH; auto.
Qed.

(** C7. When the events before the first quit key hold no confirm key,
    the event loop finishes with [selected] still -1, and [SelectOption]
    returns the empty string with the error "no option was selected". *)
Theorem quit_without_selection (st : Styles) (title : string)
    (iteration : list (string * string)) (centerItems : bool)
    (pre : list Event) (k : string) (rest : list Event) :
  Forall (fun ev => no_confirm ev = true) pre ->
  Matches k (Quit newKeyMap) = true ->
  (exists finalModel,
     Run st (initialModel title iteration centerItems) (pre ++ Deliver (KeyMsg k) :: rest)
       = Finished finalModel /\
     selected finalModel = -1) /\
  SelectOption st title iteration centerItems (pre ++ Deliver (KeyMsg k) :: rest)
    = Returns "" (Some "no option was selected").
Proof.
  intros Hpre Hq.
  destruct (Run_quit_without_confirm pre st (initialModel title iteration centerItems) k rest)
    as (m' & HR & Hsel & _); auto.
  split; [eauto|].
  unfold SelectOption. rewrite HR, Hsel. reflexivity.
Qed.

Lemma quit_without_selection_witness :
  SelectOption initial_styles "pick" [("A", "descA"); ("B", "descB")] false
    ([Deliver (WindowSizeMsg 80 24); Deliver (KeyMsg "down")] ++ Deliver (KeyMsg "q") :: [])
    = Returns "" (Some "no option was selected").
Proof.
  apply (quit_without_selection initial_styles "pick" [("A", "descA"); ("B", "descB")] false
           [Deliver (WindowSizeMsg 80 24); Deliver (KeyMsg "down")] "q" []).
  - repeat constructor.
  - reflexivity.
Defined.

(** The two arrangements in which [range] can yield the entries of the
    example map. *)
Lemma range_order_A_B iteration :
  range_order options_A_B iteration ->
  iteration = [("A", "descA"); ("B", "descB")] \/
  iteration = [("B", "descB"); ("A", "descA")].
Proof.
  unfold range_order.
  replace (map_to_list options_A_B) with [("A", "descA"); ("B", "descB")]
    by (vm_compute; reflexivity).
  intros Hp. symmetry in Hp. apply Permutation_length_2_inv in Hp. exact Hp.
Qed.

(** C4, as the code has it.  Down then enter returns, with a nil error, the
    title of the option listed second, and the list follows the iteration
    of the map: "B" when [range] yields A first, "A" when it yields B
    first. *)
Theorem down_then_enter_selects_second (st : Styles) (title : string)
    (iteration : list (string * string)) (centerItems : bool) (rest : list Event) :
  range_order options_A_B iteration ->
  let outcome := SelectOption st title iteration centerItems
                   (Deliver (KeyMsg "down") :: Deliver (KeyMsg "enter") :: rest) in
  (iteration = [("A", "descA"); ("B", "descB")] /\ outcome = Returns "B" None) \/
  (iteration = [("B", "descB"); ("A", "descA")] /\ outcome = Returns "A" None).
Proof.
  intros Hr outcome. subst outcome.
  destruct (range_order_A_B iteration Hr) as [-> | ->]; [left | right];
    (split; [reflexivity|]); reflexivity.
Qed.

Lemma down_then_enter_selects_second_witness :
  SelectOption initial_styles "pick" [("A", "descA"); ("B", "descB")] false
    [Deliver (KeyMsg "down"); Deliver (KeyMsg "enter")] = Returns "B" None.
Proof.
  destruct (down_then_enter_selects_second initial_styles "pick"
              [("A", "descA"); ("B", "descB")] false [])
    as [[_ H] | [H _]].
  - unfold range_order. vm_compute. reflexivity.
  - exact H.
  - discriminate H.
Defined.

(** C4 as stated fails: when [range] yields B before A, down then enter
    returns "A". *)
Lemma down_then_enter_can_select_A :
  let iteration := [("B", "descB"); ("A", "descA")] in
  range_order options_A_B iteration /\
  SelectOption initial_styles "pick" iteration false
    [Deliver (KeyMsg "down"); Deliver (KeyMsg "enter")] = Returns "A" None /\
  SelectOption initial_styles "pick" iteration false
    [Deliver (KeyMsg "down"); Deliver (KeyMsg "enter")] <> Returns "B" None.
Proof.
  split; [|split].
  - unfold range_order.
    replace (map_to_list options_A_B) with [("A", "descA"); ("B", "descB")]
      by (vm_compute; reflexivity).
    apply perm_swap.
  - reflexivity.
  - discriminate.
Qed.

(** C10. The selector of an empty option map has no option under its cursor:
    on a confirm key [Update] reads [options[cursor]] out of range and
    panics, and the event loop ends by that panic. *)
Theorem enter_on_empty_options_panics (st : Styles) (title : string)
    (iteration : list (string * string)) (centerItems : bool) (k : string) :
  range_order ∅ iteration ->
  Matches k (Enter newKeyMap) = true ->
  let m := initialModel title iteration centerItems in
  options m = [] /\
  index (options m) (cursor m) = None /\
  Update st m (KeyMsg k) = Panic "runtime error: index out of range" /\
  (forall rest, Run st m (Deliver (KeyMsg k) :: rest)
                = Panicked "runtime error: index out of range").
Proof.
  unfold range_order. rewrite map_to_list_empty.
  intros Hp Hk. apply Permutation_nil_r in Hp. subst iteration.
  assert (k = "enter") as ->.
  { cbn in Hk. destruct (String.eqb_spec k "enter"); [assumption | discriminate]. }
  repeat split.
Qed.

Lemma enter_on_empty_options_panics_witness :
  Update initial_styles (initialModel "pick" [] false) (KeyMsg "enter")
    = Panic "runtime error: index out of range".
Proof.
  apply (enter_on_empty_options_panics initial_styles "pick" [] false "enter").
  - unfold range_order. rewrite map_to_list_empty. constructor.
  - reflexivity.
Defined.

(** ** Spinner *)

Lemma step_task_chans n sys : chans (step_task n sys) = chans sys.
Proof.
  unfold step_task. destruct (tasks sys !! n) as [t|]; [|reflexivity].
  destruct (task_step t sys). reflexivity.
Qed.

Lemma run_schedule_chans schedule : forall sys,
  chans (run_schedule schedule sys) = chans sys.
Proof.
  induction schedule as [|n schedule IH]; intros sys; [reflexivity|].
  cbn. unfold run_schedule in IH. rewrite IH. apply step_task_chans.
Qed.

Lemma stop_received_chans s sys sys' :
  chans sys' = chans sys -> stop_received s sys' = stop_received s sys.
Proof. unfold stop_received. now intros ->. Qed.

(** One statement of a goroutine of [s]: it stays a goroutine of [s], and
    once the stop channel is closed it gets one statement closer to its
    exit. *)
Lemma task_step_of s t sys :
  task_of s t ->
  task_of s (fst (task_step t sys)) /\
  (stop_received s sys = true ->
   remaining (fst (task_step t sys)) = pred (remaining t)).
Proof.
  intros [-> | (i & p & ->)].
  - split; [now left | reflexivity].
  - destruct p; cbn [task_step].
    + destruct (stop_received s sys) eqn:Hstop.
      * split; [now left | reflexivity].
      * split; [right; eauto | discriminate].
    + destruct (print_frame s (nth i frames "") (world sys)) as [u w].
      split; [right; eauto | reflexivity].
Qed.

Lemma step_task_lookup m n sys t :
  tasks sys !! n = Some t ->
  tasks (step_task m sys) !! n =
    Some (if Nat.eqb m n then fst (task_step t sys) else t).
Proof.
  intros Ht. unfold step_task.
  destruct (Nat.eqb_spec m n) as [-> | Hne].
  - rewrite Ht. destruct (task_step t sys) as [t' w]. cbn.
    apply list_lookup_insert_eq. now apply lookup_lt_Some in Ht.
  - destruct (tasks sys !! m) as [tm|]; [|exact Ht].
    destruct (task_step tm sys) as [t' w]. cbn.
    now rewrite list_lookup_insert_ne.
Qed.

(** Along any schedule a goroutine of [s] stays one; with the stop channel
    closed, each of its own statements brings it closer to its exit. *)
Lemma run_schedule_task s n schedule : forall sys t,
  tasks sys !! n = Some t ->
  task_of s t ->
  exists t',
    tasks (run_schedule schedule sys) !! n = Some t' /\
    task_of s t' /\
    (stop_received s sys = true ->
     (remaining t' <= remaining t - count_occ Nat.eq_dec schedule n)%nat).
Proof.
  induction schedule as [|m schedule IH]; intros sys t Ht Hof.
  - exists t. cbn. repeat split; auto. intros _. lia.
  - pose proof (step_task_lookup m n sys t Ht) as Hstep.
    destruct (task_step_of s t sys Hof) as [Hof' Hrem].
    destruct (IH (step_task m sys) _ Hstep) as (t' & Ht' & Hof'' & Hrem').
    { destruct (Nat.eqb m n); assumption. }
    exists t'. split; [exact Ht'|]. split; [exact Hof''|].
    intros Hstop.
    rewrite (stop_received_chans s sys (step_task m sys) (step_task_chans m sys)) in Hrem'.
    specialize (Hrem' Hstop). specialize (Hrem Hstop).
    cbn [count_occ]. destruct (Nat.eq_dec m n) as [-> | Hne].
    + rewrite Nat.eqb_refl in Hrem'. lia.
    + apply Nat.eqb_neq in Hne. rewrite Hne in Hrem'. lia.
Qed.

(** C5. For a spinner made by [NewSpinner] and started, whatever its
    goroutine has done so far: the first [Stop] succeeds, closes the stop
    channel and prints a final "\r\n"; from then on the goroutine returns
    at its next [select] (after at most two of its own statements); and a
    second [Stop], whenever it comes, panics on closing the closed
    channel. *)
Theorem Stop_once_succeeds_twice_panics (sys : Sys) (msg : string) (schedule : list nat) :
  let s := fst (NewSpinner msg sys) in
  let task := length (tasks sys) in
  let started := run_schedule schedule (Start s (snd (NewSpinner msg sys))) in
  exists stopped,
    Stop s started = Ok stopped /\
    out (world stopped) = (out (world started) ++ [FmtPrint (String CR (String LF ""))])%list /\
    stop_received s stopped = true /\
    (forall later,
       (2 <= count_occ Nat.eq_dec later task)%nat ->
       tasks (run_schedule later stopped) !! task = Some Exited) /\
    (forall later,
       Stop s (run_schedule later stopped) = Panic "close of closed channel").
Proof.
  intros s task started.
  assert (Hch : chans started = (chans sys ++ [ChanOpen])%list).
  { subst started. now rewrite run_schedule_chans. }
  assert (Hopen : chans started !! length (chans sys) = Some ChanOpen).
  { rewrite Hch. rewrite lookup_app_r by lia.
    now replace (length (chans sys) - length (chans sys))%nat with 0%nat by lia. }
  destruct (run_schedule_task s task schedule (Start s (snd (NewSpinner msg sys)))
              (Running s 0 AtSelect))
    as (t & Ht & Hof & _).
  { cbn. rewrite lookup_app_r by (subst task; lia).
    subst task. now replace (length (tasks sys) - length (tasks sys))%nat with 0%nat by lia. }
  { right. eauto. }
  fold started in Ht.
  set (stopped := {| world := wrote (FmtPrint (String CR (String LF ""))) (world started);
                     chans := <[length (chans sys) := ChanClosed]> (chans started);
                     tasks := tasks started |}).
  assert (Hclosed : chans stopped !! length (chans sys) = Some ChanClosed).
  { cbn. apply list_lookup_insert_eq. now apply lookup_lt_Some in Hopen. }
  assert (Hrecv : stop_received s stopped = true).
  { unfold stop_received. cbn [s NewSpinner fst stopChan]. now rewrite Hclosed. }
  exists stopped. split; [|split; [|split; [|split]]].
  - unfold Stop. cbn [s NewSpinner fst stopChan]. rewrite Hopen. reflexivity.
  - reflexivity.
  - exact Hrecv.
  - intros later Hcount.
    destruct (run_schedule_task s task later stopped t Ht Hof) as (t' & Ht' & _ & Hrem).
    specialize (Hrem Hrecv). rewrite Ht'. f_equal.
    assert (remaining t <= 2)%nat by (destruct t as [? ? []|]; cbn; lia).
    destruct t' as [? ? []|]; cbn in Hrem; [lia | lia | reflexivity].
  - intros later. unfold Stop. cbn [s NewSpinner fst stopChan].
    rewrite run_schedule_chans, Hclosed. reflexivity.
Qed.

(** A run of C5: a spinner is started, its goroutine prints two frames, the
    spinner is stopped, and the goroutine exits at its next [select]. *)
Example spinner_run :
  let sys := {| world := sample_world default_flags; chans := []; tasks := [] |} in
  let '(s, sys1) := NewSpinner "Building go" sys in
  let started := run_schedule [0; 0; 0; 0]%nat (Start s sys1) in
  exists stopped,
    Stop s started = Ok stopped /\
    out (world stopped) =
      [FmtPrint ("[2024-01-01 00:00:00] [⏳] | Building go" +:+ String CR "");
       FmtPrint ("[2024-01-01 00:00:00] [⏳] / Building go" +:+ String CR "");
       FmtPrint (String CR (String LF ""))] /\
    tasks (run_schedule [0]%nat stopped) = [Exited] /\
    Stop s stopped = Panic "close of closed channel".
Proof. eexists. repeat split. Qed.

(** * Further properties *)

(** ** The string-returning functions *)

Lemma slogMessage_quiet level message : quiet (slogMessage level message).
Proof.
  intros w. unfold slogMessage, bind, get_flags.
  destruct (SuppressOutput (flags w)); cbn; auto.
Qed.

(** X1. The string-returning functions never write and never change a
    flag: [slogMessage] at any level and the five S-functions with their
    formatted forms leave the output as it was. *)
Theorem string_variants_write_nothing `{Fmt} (level message format : string)
    (args : list any) :
  quiet (slogMessage level message) /\
  (quiet (Sinfo args) /\ quiet (Swarning args) /\ quiet (Serror args) /\
   quiet (Sdebug args) /\ quiet (Ssuccess args)) /\
  (quiet (Sinfof format args) /\ quiet (Swarningf format args) /\
   quiet (Serrorf format args) /\ quiet (Sdebugf format args) /\
   quiet (Ssuccessf format args)).
Proof.
  assert (HD : forall a, quiet (Sdebug a)).
  { intros a w. unfold Sdebug, bind, get_flags.
    destruct (DebugEnabled (flags w)); [apply slogMessage_quiet | cbn; auto]. }
  repeat split; try apply slogMessage_quiet; try apply HD.
  all: unfold Sdebugf, bind, get_flags;
    destruct (DebugEnabled (flags w)); first [apply HD | cbn; auto].
Qed.

(** ** The two formatters side by side *)

Lemma level_switches_agree level : snd (level_color_emoji level) = level_emoji level.
Proof.
  unfold level_color_emoji, level_emoji.
  repeat match goal with |- context [if ?b then _ else _] => destruct b end;
    reflexivity.
Qed.

(** X2. For every level name, known or not, [logMessage] and [slogMessage]
    produce the same text around the timestamp bracket: the logged line is
    the returned string with the color escape put before the bracket and the
    reset escape after it. *)
Theorem log_and_string_variants_agree (level message : string) (w : World) :
  SuppressOutput (flags w) = false ->
  let bracket := "[" +:+ clock w (ticks w) +:+ "]" in
  let rest := " [" +:+ level_emoji level +:+ "] " +:+ message in
  let color := if ColorsEnabled (flags w) then fst (level_color_emoji level) else "" in
  let line := color +:+ "[" +:+ clock w (ticks w) +:+ "]" +:+ colorReset +:+ rest in
  fst (slogMessage level message w) = "[" +:+ clock w (ticks w) +:+ "]" +:+ rest /\
  out (snd (logMessage level message w)) =
    (out w ++ [if String.eqb level "USERINPUT" then FmtPrint line else LogPrintln line])%list.
Proof.
  intros Hs bracket rest color line. split.
  - unfold slogMessage, bind, get_flags. rewrite Hs. reflexivity.
  - rewrite (logMessage_writes _ _ _ Hs). subst line color rest.
    rewrite level_switches_agree.
    destruct (String.eqb level "USERINPUT"); reflexivity.
Qed.

Lemma log_and_string_variants_agree_witness :
  let w := sample_world default_flags in
  fst (slogMessage "WARNING" "disk" w) = "[2024-01-01 00:00:00] [⚠️] disk" /\
  out (snd (logMessage "WARNING" "disk" w)) =
    [LogPrintln (colorYellow +:+ "[2024-01-01 00:00:00]" +:+ colorReset +:+ " [⚠️] disk")].
Proof.
  intros w.
  destruct (log_and_string_variants_agree "WARNING" "disk" w eq_refl) as [H1 H2].
  split; [exact H1 | exact H2].
Defined.

(** X3. Two logging calls in a row each read the clock once: the two lines
    appear in call order, the first with the current clock reading and the
    second with the next one. *)
Theorem consecutive_logs_are_stamped_in_order (level1 message1 level2 message2 : string)
    (w : World) :
  SuppressOutput (flags w) = false ->
  let line level message timestamp :=
    let text := (if ColorsEnabled (flags w) then fst (level_color_emoji level) else "") +:+
                "[" +:+ timestamp +:+ "]" +:+ colorReset +:+
                " [" +:+ snd (level_color_emoji level) +:+ "] " +:+ message in
    if String.eqb level "USERINPUT" then FmtPrint text else LogPrintln text in
  let w' := snd ((run logMessage level1 message1; logMessage level2 message2) w) in
  out w' = (out w ++ [line level1 message1 (clock w (ticks w));
                      line level2 message2 (clock w (S (ticks w)))])%list /\
  ticks w' = S (S (ticks w)).
Proof.
  intros Hs line w'. subst w'. unfold bind.
  rewrite (logMessage_writes level1 message1 w Hs). cbn [fst snd].
  rewrite logMessage_writes by exact Hs.
  subst line. cbn. rewrite <- app_assoc. cbn.
  destruct (String.eqb level1 "USERINPUT"), (String.eqb level2 "USERINPUT"); auto.
Qed.

Lemma consecutive_logs_are_stamped_in_order_witness :
  let w := {| flags := default_flags;
              clock := fun n => match n with O => "12:00:00" | _ => "12:00:01" end;
              ticks := 0; out := [] |} in
  out (snd ((run logMessage "INFO" "a"; logMessage "ERROR" "b") w)) =
    [LogPrintln (colorMagenta +:+ "[12:00:00]" +:+ colorReset +:+ " [📜] a");
     LogPrintln (colorRed +:+ "[12:00:01]" +:+ colorReset +:+ " [❌] b")].
Proof.
  intros w.
  destruct (consecutive_logs_are_stamped_in_order "INFO" "a" "ERROR" "b" w eq_refl)
    as [H _].
  exact H.
Defined.

(** ** More on the readers *)

(** X4. When the input holds a complete first line that fits the buffer,
    [UserInput] stores that line, without its newline and without a
    carriage return before it, and logs no error: whatever follows the
    line, be it more input or a broken stream, is not looked at. *)
Theorem UserInput_stores_first_line (promptMessage userInput input line rest : string)
    (e : error) (w : World) :
  break_line input = Some (line, rest) ->
  fits line = true ->
  UserInput promptMessage userInput {| bytes := input; ending := e |} w =
    (dropCR line, snd (logMessage "USERINPUT" promptMessage w)).
Proof.
  intros Hb Hfit. unfold UserInput, bind, Scan, NewScanner.
  destruct (logMessage "USERINPUT" promptMessage w) as [[] w'].
  cbn [src bytes ending]. rewrite Hb, Hfit. reflexivity.
Qed.

Lemma UserInput_stores_first_line_witness :
  fst (UserInput "name: " "old"
         {| bytes := "hello" +:+ String CR newline +:+ "more"; ending := ReadError "closed" |}
         (sample_world default_flags)) = "hello".
Proof.
  rewrite (UserInput_stores_first_line "name: " "old"
             ("hello" +:+ String CR newline +:+ "more") ("hello" +:+ String CR "") "more");
    reflexivity.
Defined.

(** X5. At the end of input before any byte, the two readers differ:
    [UserInput] leaves the caller's variable as it was, [MUserInput] sets it
    to the empty string.  Neither logs an error. *)
Theorem readers_at_end_of_input (promptMessage userInput : string) (w : World) :
  let stdin := {| bytes := ""; ending := EOF |} in
  let prompted := snd (logMessage "USERINPUT" promptMessage w) in
  UserInput promptMessage userInput stdin w = (userInput, prompted) /\
  MUserInput promptMessage userInput stdin w = ("", prompted).
Proof.
  intros stdin prompted. subst stdin prompted. split.
  - unfold UserInput, bind. destruct (logMessage "USERINPUT" promptMessage w) as [[] w'].
    reflexivity.
  - unfold MUserInput, bind. destruct (logMessage "USERINPUT" promptMessage w) as [[] w'].
    rewrite MUserInput_loop_step. reflexivity.
Qed.

(** The first line of a text is cut off by [break_line], or is the whole
    text. *)
Lemma lines_cons s l ls :
  lines s = l :: ls ->
  (exists r, break_line s = Some (l, r) /\ lines r = ls) \/
  (break_line s = None /\ s = l /\ ls = []).
Proof.
  intros Hl. destruct (break_line s) as [[l' r]|] eqn:Hb.
  - left. rewrite (lines_break _ _ _ Hb) in Hl. injection Hl as H1 H2. subst. eauto.
  - right. destruct s as [|c s]; [discriminate|].
    rewrite (lines_no_break _ _ Hb) in Hl. injection Hl as H1 H2. subst. auto.
Qed.

(** The loop stops at the first line that does not fit, with the scanner's
    error [ErrTooLong]. *)
Lemma MUserInput_loop_too_long good : forall scanner input bad rest,
  lines (bytes (src scanner)) = (good ++ bad :: rest)%list ->
  Forall (fun l => fits l = true /\ dropCR l <> "") good ->
  fits bad = false ->
  exists scanner',
    MUserInput_loop scanner input = (input +:+ join_lines (map dropCR good), scanner') /\
    Err scanner' = Some ErrTooLong.
Proof.
  induction good as [|g good IH]; intros scanner input bad rest Hl Hgood Hbad;
    rewrite MUserInput_loop_step; unfold Scan.
  - apply lines_cons in Hl as [(r & Hb & _) | (Hb & Hs & _)].
    + rewrite Hb, Hbad. eexists. split; [cbn; now rewrite append_nil_r | reflexivity].
    + rewrite Hb, Hs, Hbad. eexists. split; [cbn; now rewrite append_nil_r | reflexivity].
  - apply Forall_cons in Hgood as [[Hg Hne] Hgood].
    apply lines_cons in Hl as [(r & Hb & Hr) | (_ & _ & Hnil)];
      [|destruct good; discriminate].
    rewrite Hb, Hg. cbn [Text token]. apply String.eqb_neq in Hne. rewrite Hne.
    set (scanner1 := {| src := {| bytes := r; ending := ending (src scanner) |};
                        token := dropCR g; err := err scanner |}).
    destruct (IH scanner1 (input +:+ dropCR g +:+ newline) bad rest Hr Hgood Hbad)
      as (scanner' & Hloop & Herr).
    exists scanner'. split; [|exact Herr].
    rewrite Hloop. cbn [map join_lines]. now rewrite !append_assoc.
Qed.

(** X6. A line of 64 KiB or more stops both readers: when the lines before
    it are not empty and fit, [MUserInput] logs the scanner's "token too
    long" error and stores nothing, dropping the lines read so far; and
    [UserInput], when the first line is the long one, logs the same error
    and leaves the caller's variable alone. *)
Theorem line_too_long_is_an_error (promptMessage userInput input : string) (e : error)
    (w : World) (good : list string) (bad : string) (rest : list string) :
  lines input = (good ++ bad :: rest)%list ->
  Forall (fun l => fits l = true /\ dropCR l <> "") good ->
  fits bad = false ->
  let stdin := {| bytes := input; ending := e |} in
  let logged := wrote (LogPrintln "Error reading input: bufio.Scanner: token too long")
                      (snd (logMessage "USERINPUT" promptMessage w)) in
  MUserInput promptMessage userInput stdin w = (userInput, logged) /\
  (good = [] -> UserInput promptMessage userInput stdin w = (userInput, logged)).
Proof.
  intros Hl Hgood Hbad stdin logged. subst logged. split.
  - destruct (MUserInput_loop_too_long good (NewScanner stdin) "" bad rest Hl Hgood Hbad)
      as (scanner' & Hloop & Herr).
    unfold MUserInput, bind.
    destruct (logMessage "USERINPUT" promptMessage w) as [[] w'].
    fold stdin. rewrite Hloop, Herr. reflexivity.
  - intros ->. unfold UserInput, bind, Scan, NewScanner. subst stdin.
    destruct (logMessage "USERINPUT" promptMessage w) as [[] w'].
    cbn [src bytes ending].
    apply lines_cons in Hl as [(r & Hb & _) | (Hb & Hs & _)].
    + rewrite Hb, Hbad. reflexivity.
    + rewrite Hb, Hs, Hbad. reflexivity.
Qed.

Lemma repeat_string_length n c :
  String.length (repeat_string n (String c "")) = n.
Proof.
  induction n as [|n IH]; [reflexivity|].
  change (S (String.length (repeat_string n (String c ""))) = S n). now rewrite IH.
Qed.

Lemma repeat_string_no_newline n c :
  Ascii.eqb c LF = false -> break_line (repeat_string n (String c "")) = None.
Proof.
  intros Hc. induction n as [|n IH]; [reflexivity|].
  change (break_line (String c (repeat_string n (String c ""))) = None).
  cbn [break_line]. now rewrite Hc, IH.
Qed.

Lemma long_line_does_not_fit : fits long_line = false.
Proof.
  unfold fits, long_line. rewrite repeat_string_length, N2Nat.id. reflexivity.
Qed.

Lemma lines_long_line : lines long_line = [long_line].
Proof.
  assert (Hb : break_line long_line = None) by (now apply repeat_string_no_newline).
  destruct long_line as [|c s] eqn:Hs.
  - pose proof long_line_does_not_fit as Hf. rewrite Hs in Hf. discriminate Hf.
  - now apply lines_no_break.
Qed.

Lemma line_too_long_is_an_error_witness :
  let w := sample_world default_flags in
  fst (MUserInput "> " "old" {| bytes := long_line; ending := EOF |} w) = "old" /\
  fst (UserInput "> " "old" {| bytes := long_line; ending := EOF |} w) = "old".
Proof.
  intros w.
  destruct (line_too_long_is_an_error "> " "old" long_line EOF w [] long_line [])
    as [HM HU].
  - exact lines_long_line.
  - constructor.
  - exact long_line_does_not_fit.
  - split; [now rewrite HM | now rewrite HU].
Defined.

Lemma break_line_app l r :
  break_line l = None -> break_line (l +:+ newline +:+ r) = Some (l, r).
Proof.
  induction l as [|c l IH]; intros Hl; [reflexivity|].
  change (break_line (String c (l +:+ newline +:+ r)) = Some (String c l, r)).
  cbn [break_line] in Hl |- *. destruct (Ascii.eqb c LF); [discriminate|].
  destruct (break_line l) as [[? ?]|]; [discriminate|].
  now rewrite IH.
Qed.




(** On lines followed by an empty line, the loop accumulates the lines and
    stops at the empty one without touching the scanner's error. *)
Lemma MUserInput_loop_round_trip ls : forall scanner input rest,
  bytes (src scanner) = join_lines ls +:+ newline +:+ rest ->
  Forall (fun l => break_line l = None /\ fits l = true /\ dropCR l <> "") ls ->
  exists scanner',
    MUserInput_loop scanner input = (input +:+ join_lines (map dropCR ls), scanner') /\
    err scanner' = err scanner.
Proof.
  induction ls as [|l ls IH]; intros scanner input rest Hbytes Hls;
    rewrite MUserInput_loop_step; unfold Scan; rewrite Hbytes.
  - cbn. eexists. split; [now rewrite append_nil_r | reflexivity].
  - apply Forall_cons in Hls as [(Hnl & Hfit & Hne) Hls].
    cbn [join_lines]. rewrite !append_assoc.
    rewrite (break_line_app l _ Hnl), Hfit. cbn [Text token].
    apply String.eqb_neq in Hne. rewrite Hne.
    set (scanner1 := {| src := {| bytes := join_lines ls +:+ newline +:+ rest;
                                  ending := ending (src scanner) |};
                        token := dropCR l; err := err scanner |}).
    destruct (IH scanner1 (input +:+ dropCR l +:+ newline) rest eq_refl Hls)
      as (scanner' & Hloop & Herr).
    exists scanner'. split; [|exact Herr].
    rewrite Hloop. cbn [map join_lines]. now rewrite !append_assoc.
Qed.

(** X7. Round trip of the multi-line reader: on lines without a newline in
    them, none empty and each fitting the buffer, written one per line and
    followed by an empty line, [MUserInput] stores exactly these lines (a
    final carriage return dropped from each), each with its newline.
    Nothing after the empty line matters, not even a read error. *)
Theorem MUserInput_round_trip (promptMessage userInput rest : string) (e : error)
    (w : World) (ls : list string) :
  Forall (fun l => break_line l = None /\ fits l = true /\ dropCR l <> "") ls ->
  MUserInput promptMessage userInput
    {| bytes := join_lines ls +:+ newline +:+ rest; ending := e |} w =
    (join_lines (map dropCR ls), snd (logMessage "USERINPUT" promptMessage w)).
Proof.
  intros Hls.
  destruct (MUserInput_loop_round_trip ls
              (NewScanner {| bytes := join_lines ls +:+ newline +:+ rest; ending := e |})
              "" rest eq_refl Hls) as (scanner' & Hloop & Herr).
  unfold MUserInput, bind.
  destruct (logMessage "USERINPUT" promptMessage w) as [[] w'].
  rewrite Hloop. unfold Err. rewrite Herr. reflexivity.
Qed.

Lemma MUserInput_round_trip_witness :
  fst (MUserInput "> " "old"
         {| bytes := join_lines ["first"; "second"] +:+ newline +:+ "ignored";
            ending := ReadError "closed" |}
         (sample_world default_flags)) = join_lines ["first"; "second"].
Proof.
  rewrite (MUserInput_round_trip "> " "old" "ignored" (ReadError "closed")
             (sample_world default_flags) ["first"; "second"]).
  - reflexivity.
  - repeat constructor; discriminate.
Defined.

(** ** More on the selector *)

Ltac split_key k :=
  repeat match goal with
         | |- context [String.eqb k ?s] =>
             destruct (String.eqb_spec k s) as [->|?]; cbn
         end.

(** X8. No key is bound twice: whatever key arrives, at most one of the
    four bindings of [newKeyMap] matches it, so the order of the cases in
    [Update] decides nothing. *)
Theorem key_bindings_are_disjoint (k : string) :
  let up := Matches k (Up newKeyMap) in
  let down := Matches k (Down newKeyMap) in
  let enter := Matches k (Enter newKeyMap) in
  let quit := Matches k (Quit newKeyMap) in
  up && down = false /\ up && enter = false /\ up && quit = false /\
  down && enter = false /\ down && quit = false /\ enter && quit = false.
Proof.
  cbn. split_key k; repeat split.
Qed.

Lemma Matches_Down_only k :
  Matches k (Down newKeyMap) = true ->
  Matches k (Quit newKeyMap) = false /\ Matches k (Up newKeyMap) = false.
Proof.
  intros Hd. destruct (key_bindings_are_disjoint k) as (H1 & _ & _ & _ & H2 & _).
  rewrite Hd in H1, H2. rewrite andb_true_r in H1. cbn in H2. auto.
Qed.

Lemma Matches_Up_only k :
  Matches k (Up newKeyMap) = true -> Matches k (Quit newKeyMap) = false.
Proof.
  intros Hu. destruct (key_bindings_are_disjoint k) as (_ & _ & H & _).
  rewrite Hu in H. exact H.
Qed.

Lemma Matches_Enter_only k :
  Matches k (Enter newKeyMap) = true ->
  Matches k (Quit newKeyMap) = false /\ Matches k (Up newKeyMap) = false /\
  Matches k (Down newKeyMap) = false.
Proof.
  intros He. destruct (key_bindings_are_disjoint k) as (_ & H1 & _ & H2 & _ & H3).
  rewrite He in H1, H2, H3. rewrite andb_true_r in H1, H2. cbn in H3. auto.
Qed.

(** The event loop on [d] down keys: the cursor goes down [d] places and
    stops at the last option. *)
Lemma Run_downs k d : forall st m rest,
  Matches k (Down newKeyMap) = true ->
  keys m = newKeyMap ->
  0 <= cursor m <= Z.of_nat (length (options m)) - 1 ->
  exists m',
    Run st m (replicate d (Deliver (KeyMsg k)) ++ rest) = Run st m' rest /\
    options m' = options m /\ keys m' = keys m /\
    cursor m' = Z.min (cursor m + Z.of_nat d) (Z.of_nat (length (options m)) - 1).
Proof.
  induction d as [|d IH]; intros st m rest Hk Hkeys Hc.
  - exists m. cbn. repeat split; auto. lia.
  - destruct (Matches_Down_only k Hk) as [Hq Hu].
    cbn [replicate app Run Update]. rewrite Hkeys, Hq, Hu, Hk.
    destruct (Z.ltb_spec (cursor m) (Z.of_nat (length (options m)) - 1)).
    + destruct (IH st (set_cursor m (cursor m + 1)) rest Hk Hkeys) as (m' & HR & Ho & Hks & Hcur).
      { cbn [set_cursor cursor options]. lia. }
      exists m'. split; [exact HR|].
      cbn [set_cursor cursor options keys] in Ho, Hks, Hcur.
      repeat split; [auto | congruence | lia].
    + destruct (IH st m rest Hk Hkeys Hc) as (m' & HR & Ho & Hks & Hcur).
      exists m'. split; [exact HR|]. repeat split; [auto | congruence | lia].
Qed.

(** The event loop on [u] up keys: the cursor goes up [u] places and stops
    at the first option. *)
Lemma Run_ups k u : forall st m rest,
  Matches k (Up newKeyMap) = true ->
  keys m = newKeyMap ->
  0 <= cursor m ->
  exists m',
    Run st m (replicate u (Deliver (KeyMsg k)) ++ rest) = Run st m' rest /\
    options m' = options m /\ keys m' = keys m /\
    cursor m' = Z.max 0 (cursor m - Z.of_nat u).
Proof.
  induction u as [|u IH]; intros st m rest Hk Hkeys Hc.
  - exists m. cbn. repeat split; auto. lia.
  - pose proof (Matches_Up_only k Hk) as Hq.
    cbn [replicate app Run Update]. rewrite Hkeys, Hq, Hk.
    destruct (Z.ltb_spec 0 (cursor m)).
    + destruct (IH st (set_cursor m (cursor m - 1)) rest Hk Hkeys) as (m' & HR & Ho & Hks & Hcur).
      { cbn [set_cursor cursor options]. lia. }
      exists m'. split; [exact HR|].
      cbn [set_cursor cursor options keys] in Ho, Hks, Hcur.
      repeat split; [auto | congruence | lia].
    + destruct (IH st m rest Hk Hkeys Hc) as (m' & HR & Ho & Hks & Hcur).
      exists m'. split; [exact HR|]. repeat split; [auto | congruence | lia].
Qed.

Lemma index_map {A B} (f : A -> B) (l : list A) (i : Z) :
  index (map f l) i = f <$> index l i.
Proof.
  unfold index. destruct (i <? 0); [reflexivity|]. apply list_lookup_fmap.
Qed.

(** X9. Moving and confirming: after [d] down keys and then [u] up keys on
    a non-empty list, a confirm key makes [SelectOption] return, with a nil
    error, the title at position max(0, min(d, len-1) - u) of the list: the
    cursor stops at both ends instead of wrapping around. *)
Theorem moves_then_enter_select_by_position (st : Styles) (title : string)
    (iteration : list (string * string)) (centerItems : bool)
    (kd ku ke : string) (d u : nat) (rest : list Event) :
  iteration <> [] ->
  Matches kd (Down newKeyMap) = true ->
  Matches ku (Up newKeyMap) = true ->
  Matches ke (Enter newKeyMap) = true ->
  SelectOption st title iteration centerItems
    (replicate d (Deliver (KeyMsg kd)) ++ replicate u (Deliver (KeyMsg ku)) ++
     Deliver (KeyMsg ke) :: rest) =
  Returns (title_at iteration
             (Z.max 0 (Z.min (Z.of_nat d) (Z.of_nat (length iteration) - 1) - Z.of_nat u)))
          None.
Proof.
  intros Hne Hd Hu He. unfold SelectOption.
  set (m0 := initialModel title iteration centerItems).
  assert (Hlen : length (options m0) = length iteration) by (cbn; apply length_map).
  assert (Hpos : (0 < length iteration)%nat) by (destruct iteration; [congruence | cbn; lia]).
  destruct (Run_downs kd d st m0
              (replicate u (Deliver (KeyMsg ku)) ++ Deliver (KeyMsg ke) :: rest) Hd eq_refl)
    as (m1 & HR1 & Ho1 & Hk1 & Hc1).
  { cbn [m0 initialModel cursor]. rewrite Hlen. lia. }
  rewrite HR1.
  destruct (Run_ups ku u st m1 (Deliver (KeyMsg ke) :: rest) Hu)
    as (m2 & HR2 & Ho2 & Hk2 & Hc2).
  { now rewrite Hk1. }
  { rewrite Hc1, Hlen. cbn [m0 initialModel cursor]. lia. }
  rewrite HR2.
  destruct (Matches_Enter_only ke He) as (Hq & Hup & Hdown).
  cbn [Run Update]. rewrite Hk2, Hk1. cbn [m0 initialModel keys].
  rewrite Hq, Hup, Hdown, He.
  assert (Hcur : cursor m2 =
    Z.max 0 (Z.min (Z.of_nat d) (Z.of_nat (length iteration) - 1) - Z.of_nat u)).
  { rewrite Hc2, Hc1, Hlen. cbn [m0 initialModel cursor]. lia. }
  destruct (index_in_range (options m2) (cursor m2)) as [o Ho].
  { rewrite Ho2, Ho1, Hlen. lia. }
  rewrite Ho. cbn [selected set_selection choice].
  destruct (Z.eqb_spec (cursor m2) (-1)) as [Hm|_]; [lia|]. cbn [negb]. f_equal.
  rewrite Ho2, Ho1 in Ho. cbn [m0 initialModel options] in Ho.
  rewrite index_map in Ho. unfold title_at. rewrite <- Hcur.
  destruct (index iteration (cursor m2)) as [kv|]; [|discriminate].
  injection Ho as <-. reflexivity.
Qed.

Lemma moves_then_enter_select_by_position_witness :
  SelectOption initial_styles "pick" [("A", "a"); ("B", "b"); ("C", "c")] false
    (replicate 5 (Deliver (KeyMsg "j")) ++ replicate 1 (Deliver (KeyMsg "up")) ++
     Deliver (KeyMsg "enter") :: []) = Returns "B" None.
Proof.
  rewrite (moves_then_enter_select_by_position initial_styles "pick"
             [("A", "a"); ("B", "b"); ("C", "c")] false "j" "up" "enter" 5 1 []);
    [reflexivity | discriminate | reflexivity | reflexivity | reflexivity].
Defined.

(** What one [Update] does to the selection: nothing unless it quits, and
    when it quits it either leaves the selection alone or selects the
    option under the cursor. *)
Lemma Update_selection st m msg st' m' c :
  Update st m msg = Ok (st', m', c) ->
  options m' = options m /\
  match c with
  | NoCmd => selected m' = selected m /\ choice m' = choice m /\ quitting m' = quitting m
  | QuitCmd =>
      quitting m' = true /\
      ((selected m' = selected m /\ choice m' = choice m) \/
       (exists o, index (options m) (selected m') = Some o /\ choice m' = o_title o))
  end.
Proof.
  unfold Update. destruct msg as [wd ht|k|].
  - intros [= <- <- <-]. cbn. auto.
  - destruct (Matches k (Quit (keys m))).
    { intros [= <- <- <-]. cbn. auto. }
    destruct (Matches k (Up (keys m))).
    { intros [= <- <- <-]. destruct (0 <? cursor m); cbn; auto. }
    destruct (Matches k (Down (keys m))).
    { intros [= <- <- <-].
      destruct (cursor m <? Z.of_nat (length (options m)) - 1); cbn; auto. }
    destruct (Matches k (Enter (keys m))).
    + destruct (index (options m) (cursor m)) as [o|] eqn:Ho; [|discriminate].
      intros [= <- <- <-]. cbn. split; [reflexivity|]. split; [reflexivity|].
      right. exists o. auto.
    + intros [= <- <- <-]. auto.
  - intros [= <- <- <-]. auto.
Qed.

(** A finished event loop hands back a quitting model over the same
    options, whose selection is the one it started with or an option of the
    list together with its title. *)
Lemma Run_finished events : forall st m m',
  Run st m events = Finished m' ->
  options m' = options m /\ quitting m' = true /\
  ((selected m' = selected m /\ choice m' = choice m) \/
   (exists o, index (options m) (selected m') = Some o /\ choice m' = o_title o)).
Proof.
  induction events as [|ev events IH]; intros st m m'; [discriminate|].
  destruct ev as [msg|e]; [|discriminate]. cbn [Run].
  destruct (Update st m msg) as [[[st1 m1] c]|r] eqn:HU; [|discriminate].
  apply Update_selection in HU as [Ho Hc]. destruct c.
  - intros HR. apply IH in HR as (Ho' & Hq & Hsel).
    destruct Hc as (Hs & Hch & _). rewrite Ho, Hs, Hch in *. auto.
  - intros [= <-]. destruct Hc as [Hq Hsel]. auto.
Qed.

Lemma index_nonneg {A} (l : list A) (i : Z) (x : A) : index l i = Some x -> 0 <= i.
Proof. unfold index. destruct (Z.ltb_spec i 0); [discriminate | lia]. Qed.

Lemma index_elem_of {A} (l : list A) (i : Z) (x : A) : index l i = Some x -> x ∈ l.
Proof.
  unfold index. destruct (i <? 0); [discriminate|].
  intros Hl. eapply list_elem_of_lookup_2. exact Hl.
Qed.

(** X10. Whatever the events are, a choice that [SelectOption] returns with
    a nil error is a key of the option map it was given; and whenever it
    returns an error, the choice is the empty string. *)
Theorem selected_choice_is_an_option (st : Styles) (title : string)
    (optionsDescs : gmap string string) (iteration : list (string * string))
    (centerItems : bool) (events : list Event) (choice : string) (err : option string) :
  range_order optionsDescs iteration ->
  SelectOption st title iteration centerItems events = Returns choice err ->
  match err with
  | None => exists desc, optionsDescs !! choice = Some desc
  | Some _ => choice = ""
  end.
Proof.
  intros Hr. unfold SelectOption.
  destruct (Run st (initialModel title iteration centerItems) events) as [m'| e | r |] eqn:HR;
    [| intros [= <- <-]; reflexivity | discriminate | discriminate].
  apply Run_finished in HR as (_ & _ & Hsel).
  destruct Hsel as [[Hs _] | (o & Ho & Hch)].
  - rewrite Hs. cbn. intros [= <- <-]. reflexivity.
  - pose proof (index_nonneg _ _ _ Ho) as Hge.
    destruct (Z.eqb_spec (selected m') (-1)) as [|_]; [lia|]. cbn [negb].
    intros [= <- <-]. rewrite Hch.
    apply index_elem_of in Ho. cbn [initialModel options] in Ho.
    apply list_elem_of_fmap in Ho as ([k v] & -> & Hin). cbn.
    exists v. apply elem_of_map_to_list. unfold range_order in Hr. now rewrite <- Hr.
Qed.

Lemma selected_choice_is_an_option_witness :
  exists desc, options_A_B !! "B" = Some desc.
Proof.
  apply (selected_choice_is_an_option initial_styles "pick" options_A_B
           [("B", "descB"); ("A", "descA")] false
           [Deliver (KeyMsg "enter")] "B" None).
  - unfold range_order.
    replace (map_to_list options_A_B) with [("A", "descA"); ("B", "descB")]
      by (vm_compute; reflexivity).
    apply perm_swap.
  - reflexivity.
Defined.

(** X11. The last view matches the result: when the event loop finishes and
    [SelectOption] returns a choice with a nil error, [View] of the final
    model is the message "You selected: <choice>", whatever the styles. *)
Theorem final_view_shows_the_choice `{Lipgloss} (st st' : Styles) (title : string)
    (iteration : list (string * string)) (centerItems : bool) (events : list Event)
    (finalModel : model) (choice : string) :
  Run st (initialModel title iteration centerItems) events = Finished finalModel ->
  SelectOption st title iteration centerItems events = Returns choice None ->
  View st' finalModel = Ok (selection_message choice).
Proof.
  intros HR. unfold SelectOption. rewrite HR.
  apply Run_finished in HR as (_ & Hq & _).
  unfold View. rewrite Hq.
  destruct (negb (selected finalModel =? -1)); [|discriminate].
  intros [= <-]. reflexivity.
Qed.

Lemma final_view_shows_the_choice_witness :
  @View plain_lipgloss initial_styles
    (set_selection (initialModel "pick" [("A", "a")] false) 0 "A") =
  Ok (selection_message "A").
Proof.
  apply (@final_view_shows_the_choice plain_lipgloss initial_styles initial_styles
           "pick" [("A", "a")] false [Deliver (KeyMsg "enter")]); reflexivity.
Defined.

(** Events that keep the loop running leave the selection as it is. *)
Lemma Run_keeps_running pre : forall st m rest,
  keys m = newKeyMap ->
  Forall (fun ev => keeps_running ev = true) pre ->
  exists st' m', Run st m (pre ++ rest) = Run st' m' rest.
Proof.
  induction pre as [|ev pre IH]; intros st m rest Hkeys Hpre; [cbn; eauto|].
  apply Forall_cons in Hpre as [Hev Hpre].
  destruct ev as [msg|e]; [|discriminate]. cbn [app Run].
  destruct msg as [wd ht|k|]; cbn [Update].
  - apply IH; auto.
  - unfold keeps_running in Hev. apply andb_true_iff in Hev as [Hq He].
    apply negb_true_iff in Hq, He. rewrite Hkeys, Hq.
    destruct (Matches k (Up newKeyMap)).
    { destruct (0 <? cursor m); apply IH; auto. }
    destruct (Matches k (Down newKeyMap)).
    { destruct (cursor m <? Z.of_nat (length (options m)) - 1); apply IH; auto. }
    rewrite He. apply IH; auto.
  - apply IH; auto.
Qed.

(** X13. The event loop ends only on a quit key, a confirm key or a failure
    of the runtime.  On events of no other kind [SelectOption] is still
    blocked when they run out, and a runtime failure that follows them is
    returned as it is, with the empty choice. *)
Theorem loop_runs_until_quit_confirm_or_failure (st : Styles) (title : string)
    (iteration : list (string * string)) (centerItems : bool)
    (pre : list Event) (e : string) (rest : list Event) :
  Forall (fun ev => keeps_running ev = true) pre ->
  SelectOption st title iteration centerItems pre = Blocks /\
  SelectOption st title iteration centerItems (pre ++ Fail e :: rest) = Returns "" (Some e).
Proof.
  intros Hpre. unfold SelectOption. split.
  - destruct (Run_keeps_running pre st (initialModel title iteration centerItems) []
                eq_refl Hpre) as (st' & m' & HR).
    rewrite app_nil_r in HR. rewrite HR. reflexivity.
  - destruct (Run_keeps_running pre st (initialModel title iteration centerItems)
                (Fail e :: rest) eq_refl Hpre) as (st' & m' & HR).
    rewrite HR. reflexivity.
Qed.

Lemma loop_runs_until_quit_confirm_or_failure_witness :
  SelectOption initial_styles "pick" [("A", "a")] true
    ([Deliver (KeyMsg "x"); Deliver (WindowSizeMsg 80 24); Deliver (KeyMsg "down")] ++
     Fail "terminal lost" :: []) = Returns "" (Some "terminal lost").
Proof.
  apply (loop_runs_until_quit_confirm_or_failure initial_styles "pick" [("A", "a")] true
           [Deliver (KeyMsg "x"); Deliver (WindowSizeMsg 80 24); Deliver (KeyMsg "down")]
           "terminal lost" []).
  repeat constructor.
Defined.

(** ** More on the spinner *)

(** While its stop channel is not closed, a goroutine keeps running. *)
Lemma run_schedule_running s n schedule : forall sys i p,
  tasks sys !! n = Some (Running s i p) ->
  stop_received s sys = false ->
  exists i' p', tasks (run_schedule schedule sys) !! n = Some (Running s i' p').
Proof.
  induction schedule as [|m schedule IH]; intros sys i p Ht Hopen; [cbn; eauto|].
  pose proof (step_task_lookup m n sys _ Ht) as Hstep.
  assert (Hopen' : stop_received s (step_task m sys) = false).
  { now rewrite (stop_received_chans s sys _ (step_task_chans m sys)). }
  cbn [run_schedule fold_left]. fold (run_schedule schedule (step_task m sys)).
  destruct (Nat.eqb m n).
  - destruct p; cbn [task_step] in Hstep.
    + rewrite Hopen in Hstep. eapply IH; eauto.
    + destruct (print_frame s (nth i frames "") (world sys)). eapply IH; eauto.
  - eapply IH; eauto.
Qed.

Lemma Start_task s sys :
  tasks (Start s sys) !! length (tasks sys) = Some (Running s 0 AtSelect).
Proof.
  cbn. rewrite lookup_app_r by lia.
  now replace (length (tasks sys) - length (tasks sys))%nat with 0%nat by lia.
Qed.

(** X16. A started spinner never stops by itself: before [Stop] is called,
    whatever the scheduler does, its goroutine is still running and its
    stop channel is still open. *)
Theorem spinner_runs_until_stopped (sys : Sys) (msg : string) (schedule : list nat) :
  let s := fst (NewSpinner msg sys) in
  let started := run_schedule schedule (Start s (snd (NewSpinner msg sys))) in
  stop_received s started = false /\
  exists i p, tasks started !! length (tasks sys) = Some (Running s i p).
Proof.
  intros s started.
  assert (Hopen : stop_received s (Start s (snd (NewSpinner msg sys))) = false).
  { unfold stop_received. cbn. rewrite lookup_app_r by lia.
    now replace (length (chans sys) - length (chans sys))%nat with 0%nat by lia. }
  split.
  - subst started. now rewrite (stop_received_chans s _ _ (run_schedule_chans schedule _)).
  - apply (run_schedule_running s _ schedule _ 0%nat AtSelect); [|exact Hopen].
    apply (Start_task s (snd (NewSpinner msg sys))).
Qed.

Lemma frame_line_shift clk n i msg j :
  frame_line clk (S n) (S i mod 4) msg j = frame_line clk n i msg (S j).
Proof.
  unfold frame_line.
  replace (S n + j)%nat with (n + S j)%nat by lia.
  replace ((S i mod 4 + j) mod 4)%nat with ((i + S j) mod 4)%nat; [reflexivity|].
  rewrite Nat.Div0.add_mod_idemp_l. f_equal. lia.
Qed.

(** The goroutine running alone for [k] rounds of its loop. *)
Lemma spinner_rounds s n k : forall sys i,
  tasks sys !! n = Some (Running s i AtSelect) ->
  stop_received s sys = false ->
  SuppressOutput (flags (world sys)) = false ->
  (i < 4)%nat ->
  let after := run_schedule (replicate (2 * k) n) sys in
  out (world after) =
    (out (world sys) ++
     map (frame_line (clock (world sys)) (ticks (world sys)) i (message s)) (seq 0 k))%list /\
  tasks after !! n = Some (Running s ((i + k) mod 4) AtSelect).
Proof.
  induction k as [|k IH]; intros sys i Ht Hopen Hs Hi.
  - change (2 * 0)%nat with 0%nat. cbn [replicate run_schedule fold_left seq map].
    rewrite app_nil_r, (Nat.add_0_r i), Nat.mod_small by exact Hi. auto.
  - replace (2 * S k)%nat with (S (S (2 * k))) by lia.
    cbn [replicate run_schedule fold_left].
    fold (run_schedule (replicate (2 * k) n) (step_task n (step_task n sys))).
    set (sys1 := step_task n sys).
    assert (Ht1 : tasks sys1 !! n = Some (Running s i AtPrint)).
    { subst sys1. rewrite (step_task_lookup n n sys _ Ht), Nat.eqb_refl.
      cbn [task_step]. now rewrite Hopen. }
    assert (Hw1 : world sys1 = world sys).
    { subst sys1. unfold step_task. rewrite Ht. cbn [task_step]. now rewrite Hopen. }
    assert (Hc1 : chans sys1 = chans sys) by apply step_task_chans.
    set (sys2 := step_task n sys1).
    assert (Ht2 : tasks sys2 !! n = Some (Running s (S i mod 4) AtSelect)).
    { subst sys2. rewrite (step_task_lookup n n sys1 _ Ht1), Nat.eqb_refl.
      cbn [task_step]. destruct (print_frame s (nth i frames "") (world sys1)).
      reflexivity. }
    assert (Hw2 : world sys2 =
      wrote (frame_line (clock (world sys)) (ticks (world sys)) i (message s) 0)
            (tick (world sys))).
    { subst sys2. unfold step_task. rewrite Ht1. cbn [task_step].
      unfold print_frame, slogMessage, bind, get_flags. rewrite Hw1, Hs.
      unfold frame_line.
      rewrite (Nat.add_0_r (ticks (world sys))), (Nat.add_0_r i), (Nat.mod_small i 4 Hi).
      reflexivity. }
    assert (Hopen2 : stop_received s sys2 = false).
    { rewrite (stop_received_chans s sys1 sys2 (step_task_chans n sys1)).
      now rewrite (stop_received_chans s sys sys1 Hc1). }
    destruct (IH sys2 (S i mod 4)%nat Ht2 Hopen2) as [Hout Htask].
    { now rewrite Hw2. }
    { apply Nat.mod_upper_bound. lia. }
    split.
    + rewrite Hout, Hw2. cbn [wrote emit tick time_Now_Format snd out clock ticks].
      rewrite <- app_assoc. f_equal. cbn [seq map app]. f_equal.
      rewrite <- seq_shift, map_map. apply map_ext. intros j.
      apply frame_line_shift.
    + rewrite Htask. do 2 f_equal.
      rewrite Nat.Div0.add_mod_idemp_l. f_equal. lia.
Qed.

(** X17. The frames of the spinner: running alone and not suppressed, the
    goroutine of a started spinner prints in its [j]-th round the line
    "[timestamp] [⏳] <frame> <message>\r" with the next reading of the clock
    and the frames | / - \ taken in turn, round after round. *)
Theorem spinner_frames_cycle (sys : Sys) (msg : string) (k : nat) :
  SuppressOutput (flags (world sys)) = false ->
  let s := fst (NewSpinner msg sys) in
  let task := length (tasks sys) in
  let after := run_schedule (replicate (2 * k) task) (Start s (snd (NewSpinner msg sys))) in
  out (world after) =
    (out (world sys) ++
     map (frame_line (clock (world sys)) (ticks (world sys)) 0 msg) (seq 0 k))%list.
Proof.
  intros Hs s task after.
  destruct (spinner_rounds s task k (Start s (snd (NewSpinner msg sys))) 0%nat) as [Hout _].
  - apply (Start_task s (snd (NewSpinner msg sys))).
  - unfold stop_received. cbn. rewrite lookup_app_r by lia.
    now replace (length (chans sys) - length (chans sys))%nat with 0%nat by lia.
  - exact Hs.
  - lia.
  - exact Hout.
Qed.

Lemma spinner_frames_cycle_witness :
  let sys := {| world := sample_world default_flags; chans := []; tasks := [] |} in
  let s := fst (NewSpinner "wait" sys) in
  out (world (run_schedule (replicate (2 * 5) 0%nat) (Start s (snd (NewSpinner "wait" sys))))) =
    [FmtPrint ("[2024-01-01 00:00:00] [⏳] | wait" +:+ String CR "");
     FmtPrint ("[2024-01-01 00:00:00] [⏳] / wait" +:+ String CR "");
     FmtPrint ("[2024-01-01 00:00:00] [⏳] - wait" +:+ String CR "");
     FmtPrint ("[2024-01-01 00:00:00] [⏳] \ wait" +:+ String CR "");
     FmtPrint ("[2024-01-01 00:00:00] [⏳] | wait" +:+ String CR "")].
Proof.
  intros sys s.
  exact (spinner_frames_cycle sys "wait" 5 eq_refl).
Defined.

Lemma Stop_closes s sys stopped :
  Stop s sys = Ok stopped ->
  stop_received s stopped = true /\ tasks stopped = tasks sys /\
  exists a, stopChan s = Some a /\ chans stopped = <[a := ChanClosed]> (chans sys).
Proof.
  unfold Stop, stop_received. destruct (stopChan s) as [a|]; [|discriminate].
  destruct (chans sys !! a) as [[]|] eqn:Ha; try discriminate.
  intros [= <-]. cbn. split; [|eauto].
  rewrite list_lookup_insert_eq; [reflexivity|]. now apply lookup_lt_Some in Ha.
Qed.

(** X18. Two spinners do not disturb each other: stopping the first leaves
    the stop channel of the second open, its goroutine running under every
    later schedule, and its own first [Stop] still succeeds. *)
Theorem stopping_one_spinner_leaves_the_other (sys : Sys) (msg1 msg2 : string)
    (schedule later : list nat) :
  let s1 := fst (NewSpinner msg1 sys) in
  let sys1 := snd (NewSpinner msg1 sys) in
  let s2 := fst (NewSpinner msg2 sys1) in
  let sys2 := snd (NewSpinner msg2 sys1) in
  let started := run_schedule schedule (Start s2 (Start s1 sys2)) in
  exists stopped,
    Stop s1 started = Ok stopped /\
    stop_received s2 (run_schedule later stopped) = false /\
    (exists i p,
       tasks (run_schedule later stopped) !! S (length (tasks sys)) = Some (Running s2 i p)) /\
    exists stopped2, Stop s2 (run_schedule later stopped) = Ok stopped2.
Proof.
  intros s1 sys1 s2 sys2 started.
  assert (Hch : chans started = (chans sys ++ [ChanOpen; ChanOpen])%list).
  { subst started. rewrite run_schedule_chans. cbn. now rewrite <- app_assoc. }
  assert (H1 : chans started !! length (chans sys) = Some ChanOpen).
  { rewrite Hch, lookup_app_r by lia.
    now replace (length (chans sys) - length (chans sys))%nat with 0%nat by lia. }
  assert (H2 : chans started !! S (length (chans sys)) = Some ChanOpen).
  { rewrite Hch, lookup_app_r by lia.
    now replace (S (length (chans sys)) - length (chans sys))%nat with 1%nat by lia. }
  assert (Ha2 : stopChan s2 = Some (S (length (chans sys)))).
  { cbn. f_equal. rewrite length_app. cbn. lia. }
  set (stopped := {| world := wrote (FmtPrint (String CR (String LF ""))) (world started);
                     chans := <[length (chans sys) := ChanClosed]> (chans started);
                     tasks := tasks started |}).
  assert (Hopen : stop_received s2 stopped = false).
  { unfold stop_received. rewrite Ha2. cbn [stopped chans].
    rewrite list_lookup_insert_ne by lia. now rewrite H2. }
  assert (Hopen' : stop_received s2 (run_schedule later stopped) = false).
  { now rewrite (stop_received_chans s2 _ _ (run_schedule_chans later stopped)). }
  destruct (run_schedule_running s2 (S (length (tasks sys))) schedule
              (Start s2 (Start s1 sys2)) 0%nat AtSelect) as (i & p & Ht).
  { pose proof (Start_task s2 (Start s1 sys2)) as HS.
    replace (length (tasks (Start s1 sys2))) with (S (length (tasks sys))) in HS
      by (cbn; rewrite length_app; cbn; lia).
    exact HS. }
  { unfold stop_received. rewrite Ha2. cbn. rewrite <- app_assoc.
    rewrite lookup_app_r by lia.
    now replace (S (length (chans sys)) - length (chans sys))%nat with 1%nat by lia. }
  fold started in Ht.
  exists stopped. split; [|split; [exact Hopen' | split]].
  - unfold Stop. cbn [s1 NewSpinner fst stopChan]. rewrite H1. reflexivity.
  - apply (run_schedule_running s2 _ later stopped i p); [exact Ht | exact Hopen].
  - unfold Stop. rewrite Ha2, run_schedule_chans. cbn [stopped chans].
    rewrite list_lookup_insert_ne by lia. rewrite H2.
    destruct (fmt_Print (String CR (String LF "")) (world (run_schedule later stopped))).
    eauto.
Qed.

(** X19. A stopped spinner cannot be used again: the goroutine of a [Start]
    that comes after a successful [Stop] returns at its first statement and
    prints nothing. *)
Theorem start_after_stop_exits_at_once (s : Spinner) (sys stopped : Sys)
    (schedule : list nat) :
  Stop s sys = Ok stopped ->
  let restarted := Start s (run_schedule schedule stopped) in
  let task := length (tasks (run_schedule schedule stopped)) in
  tasks (step_task task restarted) !! task = Some Exited /\
  world (step_task task restarted) = world restarted.
Proof.
  intros HS restarted task.
  apply Stop_closes in HS as (Hrecv & _).
  assert (Hrecv' : stop_received s restarted = true).
  { subst restarted.
    rewrite (stop_received_chans s (run_schedule schedule stopped)
               (Start s (run_schedule schedule stopped)) eq_refl).
    now rewrite (stop_received_chans s stopped _ (run_schedule_chans schedule stopped)). }
  pose proof (Start_task s (run_schedule schedule stopped)) as Ht.
  fold restarted task in Ht. split.
  - rewrite (step_task_lookup task task restarted _ Ht), Nat.eqb_refl.
    cbn [task_step]. now rewrite Hrecv'.
  - unfold step_task. rewrite Ht. cbn [task_step]. now rewrite Hrecv'.
Qed.

Lemma start_after_stop_exits_at_once_witness :
  let sys := {| world := sample_world default_flags; chans := [ChanOpen]; tasks := [] |} in
  let s := {| stopChan := Some 0%nat; message := "wait" |} in
  exists stopped,
    Stop s sys = Ok stopped /\
    tasks (step_task 0 (Start s stopped)) = [Exited].
Proof.
  intros sys s. eexists. split; [reflexivity|].
  match goal with |- context [Start s ?st] =>
    destruct (start_after_stop_exits_at_once s sys st [] eq_refl) as [H _] end.
  cbn in H |- *. reflexivity.
Defined.

(** X20. A zero [Spinner], not made by [NewSpinner], has a nil stop channel:
    its [Stop] panics on closing it, even the first time, and the goroutine
    of its [Start] can never be told to stop. *)
Theorem zero_spinner_cannot_be_stopped (msg : string) (sys : Sys) (schedule : list nat) :
  let s := {| stopChan := None; message := msg |} in
  Stop s sys = Panic "close of nil channel" /\
  exists i p,
    tasks (run_schedule schedule (Start s sys)) !! length (tasks sys) = Some (Running s i p).
Proof.
  intros s. split; [reflexivity|].
  apply (run_schedule_running s _ schedule (Start s sys) 0%nat AtSelect);
    [apply Start_task | reflexivity].
Qed.

(** ** The logrus formatter *)

Lemma Format_no_error f entry : snd (Logrus.Format f entry) = None.
Proof. reflexivity. Qed.

(** The text of an entry before the newline rule is applied does not depend
    on the field "no_newline". *)
Lemma Format_with_no_newline f entry v :
  fst (Logrus.Format f (with_field "no_newline" v entry)) =
  match v with
  | Logrus.VBool true =>
      fst (Logrus.Format f (with_field "no_newline" (Logrus.VBool true) entry))
  | _ => fst (Logrus.Format f (with_field "no_newline" (Logrus.VBool true) entry)) +:+ newline
  end.
Proof.
  unfold Logrus.Format, with_field. cbn [Logrus.Data Logrus.Time Logrus.Level Logrus.Message].
  rewrite !lookup_insert_eq.
  rewrite !(lookup_insert_ne _ "no_newline" "emoji") by discriminate.
  rewrite !(lookup_insert_ne _ "no_newline" "log_type") by discriminate.
  cbn [Logrus.as_bool fst].
  destruct v as [s|[]|]; cbn [Logrus.as_bool fst]; try reflexivity;
    now rewrite !append_assoc.
Qed.

(** X21. The newline rule of the formatter: an entry is written without a
    final newline only when its field "no_newline" is the boolean true.
    With the boolean false, or with a value that is not a boolean, the same
    text is written with a newline after it; and [Format] never returns an
    error. *)
Theorem Format_newline_rule (f : Logrus.emojiFormatter) (entry : Logrus.Entry)
    (v : Logrus.value) :
  v <> Logrus.VBool true ->
  fst (Logrus.Format f (with_field "no_newline" v entry)) =
    fst (Logrus.Format f (with_field "no_newline" (Logrus.VBool true) entry)) +:+ newline /\
  snd (Logrus.Format f (with_field "no_newline" v entry)) = None.
Proof.
  intros Hv. split; [|reflexivity].
  rewrite Format_with_no_newline. destruct v as [s|[]|]; congruence.
Qed.

Lemma Format_newline_rule_witness :
  let entry := {| Logrus.Data := ∅; Logrus.Time := "12:00:00";
                  Logrus.Level := Logrus.WarnLevel; Logrus.Message := "disk" |} in
  fst (Logrus.Format Logrus.New_formatter
         (with_field "no_newline" (Logrus.VString "true") entry)) =
  "[" +:+ colorYellow +:+ "12:00:00" +:+ colorReset +:+ "] [⚠️ ] disk" +:+ newline.
Proof.
  intros entry.
  destruct (Format_newline_rule Logrus.New_formatter entry (Logrus.VString "true"))
    as [H _]; [discriminate|].
  rewrite H. vm_compute. reflexivity.
Defined.

(** X22. The prompt of [Input]: the entry it logs is written by the
    formatter of [New] as "[<reset><time><reset>] [📝] <message>", with the
    emoji of the field instead of the one of the info level, without a
    color and without a newline, whatever the message. *)
Theorem Input_prompt_format (now message : string) :
  Logrus.Format Logrus.New_formatter (Logrus.Input_entry now message) =
    ("[" +:+ (colorReset +:+ now +:+ colorReset) +:+ "] " +:+ "[📝] " +:+ message, None).
Proof.
  unfold Logrus.Format, Logrus.Input_entry.
  cbn [Logrus.Data Logrus.Time Logrus.Level Logrus.Message].
  rewrite lookup_insert_eq.
  rewrite (lookup_insert_ne _ "no_newline" "emoji") by discriminate.
  rewrite (lookup_insert_ne _ "no_newline" "log_type") by discriminate.
  rewrite lookup_insert_eq.
  rewrite (lookup_insert_ne _ "emoji" "log_type") by discriminate.
  rewrite lookup_insert_eq.
  reflexivity.
Qed.

(** X23. Levels the formatter of [New] has no emoji for: an entry of a
    level other than info, warning, error and debug (panic, fatal, trace or
    any other value), without an emoji field and without a newline field,
    is written without emoji and without color, as
    "[<reset><time><reset>] <message>" and a newline. *)
Theorem Format_other_levels (entry : Logrus.Entry) :
  Logrus.Level entry <> Logrus.InfoLevel ->
  Logrus.Level entry <> Logrus.WarnLevel ->
  Logrus.Level entry <> Logrus.ErrorLevel ->
  Logrus.Level entry <> Logrus.DebugLevel ->
  Logrus.Data entry !! "emoji" = None ->
  Logrus.Data entry !! "no_newline" = None ->
  fst (Logrus.Format Logrus.New_formatter entry) =
    "[" +:+ colorReset +:+ Logrus.Time entry +:+ colorReset +:+ "] " +:+
    Logrus.Message entry +:+ newline.
Proof.
  intros Hi Hw He Hd Hemoji Hnl.
  assert (Hnone : Logrus.levelEmojis Logrus.New_formatter !! Logrus.Level entry = None).
  { unfold Logrus.New_formatter. cbn [Logrus.levelEmojis].
    rewrite !lookup_insert_ne by congruence. apply lookup_singleton_ne. congruence. }
  unfold Logrus.Format.
  rewrite Hemoji, Hnl, Hnone. cbn [Logrus.as_string Logrus.as_bool fst default].
  apply N.eqb_neq in Hi, Hw, He, Hd. rewrite Hi, Hw, He, Hd.
  now rewrite !append_assoc.
Qed.

Lemma Format_other_levels_witness :
  fst (Logrus.Format Logrus.New_formatter
         {| Logrus.Data := ∅; Logrus.Time := "12:00:00";
            Logrus.Level := Logrus.FatalLevel; Logrus.Message := "gone" |}) =
  "[" +:+ colorReset +:+ "12:00:00" +:+ colorReset +:+ "] gone" +:+ newline.
Proof.
  rewrite Format_other_levels; [reflexivity | discriminate | discriminate |
    discriminate | discriminate | apply lookup_empty | apply lookup_empty].
Defined.

(** X24. [Input] always assigns the caller's variable and reports no read
    error.  At the end of input, or when the stream breaks before any byte,
    the variable becomes the empty string and its previous content is lost;
    what is written never depends on standard input; and with a logger
    level below info the prompt is not written at all, while the read still
    takes place. *)
Theorem Input_overwrites_and_reports_nothing (f : Logrus.emojiFormatter)
    (level : Logrus.level_t) (now message userInput : string) (e : error)
    (stdin : Stdin) :
  snd (Logrus.Input f level now message userInput {| bytes := ""; ending := e |}) = "" /\
  fst (Logrus.Input f level now message userInput stdin) =
    fst (Logrus.Input f level now message userInput {| bytes := ""; ending := EOF |}) /\
  ((level < Logrus.InfoLevel)%N ->
   fst (Logrus.Input f level now message userInput stdin) = [Logrus.StdoutPrint " "]).
Proof.
  split; [reflexivity|]. split.
  - unfold Logrus.Input. destruct (Scan (NewScanner stdin)). reflexivity.
  - intros Hl. unfold Logrus.Input. destruct (Scan (NewScanner stdin)).
    apply N.leb_gt in Hl. rewrite Hl. reflexivity.
Qed.

Lemma Input_overwrites_and_reports_nothing_witness :
  Logrus.Input Logrus.New_formatter Logrus.ErrorLevel "12:00:00" "name" "old"
    {| bytes := ""; ending := ReadError "closed" |} = ([Logrus.StdoutPrint " "], "").
Proof.
  destruct (Input_overwrites_and_reports_nothing Logrus.New_formatter Logrus.ErrorLevel
              "12:00:00" "name" "old" (ReadError "closed")
              {| bytes := ""; ending := ReadError "closed" |}) as (H1 & _ & H3).
  specialize (H3 eq_refl).
  destruct (Logrus.Input Logrus.New_formatter Logrus.ErrorLevel "12:00:00" "name" "old"
              {| bytes := ""; ending := ReadError "closed" |}) as [written stored].
  cbn in H1, H3. now subst.
Defined.
